(** * NexusChat (web-rag): mention resolution, knowledge store and composer

    A shallow embedding of [src/app/page.tsx].  The page is a React
    component tree; every handler is embedded as a function on the state it
    reads and writes, and the points where the program reads its environment
    ([Date.now()], [Math.random()], the firing of the response timer) are
    arguments of the handler or events of the step function.

    JavaScript strings are modelled as lists of UTF-16 code units. *)

From Stdlib Require Import ZArith NArith Ascii String DecimalString DecimalPos DecimalZ Lia.
From stdpp Require Import base list strings.

Local Open Scope Z_scope.

(** ** JavaScript string primitives *)

Module JS.

(** A UTF-16 code unit. *)
Definition code_unit := N.

(** The code unit of an ASCII character. *)
Definition cu (c : ascii) : code_unit := N_of_ascii c.
Arguments cu c%_char : simpl never.

Definition str := list code_unit.

(** A string literal of the source (the literals of the page are ASCII). *)
Definition lit (s : string) : str := cu <$> list_ascii_of_string s.

Definition dquote : code_unit := cu "034".
Definition newline : code_unit := cu "010".

Definition len (s : str) : Z := Z.of_nat (length s).

(** Relative index of [slice]: negative counts from the end, then clamp. *)
Definition rel_index (n i : Z) : Z :=
  if i <? 0 then Z.max (n + i) 0 else Z.min i n.

(** [s.slice(a, b)] *)
Definition slice (s : str) (a b : Z) : str :=
  let from := rel_index (len s) a in
  let to := rel_index (len s) b in
  take (Z.to_nat (to - from)) (drop (Z.to_nat from) s).

(** [s.slice(a)]: the end defaults to the length. *)
Definition slice_from (s : str) (a : Z) : str := slice s a (len s).

(** [s.substring(a, b)]: both ends clamped to [0, length], swapped when
    out of order. *)
Definition substring (s : str) (a b : Z) : str :=
  let a' := Z.min (Z.max a 0) (len s) in
  let b' := Z.min (Z.max b 0) (len s) in
  let from := Z.min a' b' in
  let to := Z.max a' b' in
  take (Z.to_nat (to - from)) (drop (Z.to_nat from) s).

(** Is [p] a prefix of [s]? *)
Fixpoint starts_with (p s : str) : bool :=
  match p, s with
  | [], _ => true
  | _ :: _, [] => false
  | a :: p', b :: s' => bool_decide (a = b) && starts_with p' s'
  end.

(** [s.includes(sub)] *)
Fixpoint includes (s sub : str) : bool :=
  starts_with sub s ||
  match s with
  | [] => false
  | _ :: s' => includes s' sub
  end.

(** [s.lastIndexOf(c)] for a one-character search string: the scan keeps
    the index of the latest occurrence met, [-1] when there is none. *)
Fixpoint lastIndexOf_scan (c : code_unit) (s : str) (i last : Z) : Z :=
  match s with
  | [] => last
  | x :: s' => lastIndexOf_scan c s' (i + 1) (if bool_decide (x = c) then i else last)
  end.

Definition lastIndexOf (s : str) (c : code_unit) : Z := lastIndexOf_scan c s 0 (-1).

(** *** [toLowerCase]

    ECMAScript lower-cases the code points of the string with the
    toLowercase algorithm of the Unicode Default Case Conversion: the simple
    lower-case mapping of each code point, two code points for U+0130, and
    for the capital sigma U+03A3 the final form U+03C2 or the plain form
    U+03C3 by the Final_Sigma condition.  The three tables are those of
    Unicode 14.0. *)

(** Simple lower-case mappings: from [lo] to [hi] in steps of [stride], the
    code point [lo + k] maps to [target + k]. *)
Definition lowercase_ranges : list (N * N * N * N) := [
  (0x41, 0x5A, 1, 0x61); (0xC0, 0xD6, 1, 0xE0); (0xD8, 0xDE, 1, 0xF8);
  (0x100, 0x12E, 2, 0x101); (0x132, 0x136, 2, 0x133); (0x139, 0x147, 2, 0x13A);
  (0x14A, 0x176, 2, 0x14B); (0x178, 0x178, 1, 0xFF); (0x179, 0x17D, 2, 0x17A);
  (0x181, 0x181, 1, 0x253); (0x182, 0x184, 2, 0x183); (0x186, 0x186, 1, 0x254);
  (0x187, 0x187, 1, 0x188); (0x189, 0x18A, 1, 0x256); (0x18B, 0x18B, 1, 0x18C);
  (0x18E, 0x18E, 1, 0x1DD); (0x18F, 0x18F, 1, 0x259); (0x190, 0x190, 1, 0x25B);
  (0x191, 0x191, 1, 0x192); (0x193, 0x193, 1, 0x260); (0x194, 0x194, 1, 0x263);
  (0x196, 0x196, 1, 0x269); (0x197, 0x197, 1, 0x268); (0x198, 0x198, 1, 0x199);
  (0x19C, 0x19C, 1, 0x26F); (0x19D, 0x19D, 1, 0x272); (0x19F, 0x19F, 1, 0x275);
  (0x1A0, 0x1A4, 2, 0x1A1); (0x1A6, 0x1A6, 1, 0x280); (0x1A7, 0x1A7, 1, 0x1A8);
  (0x1A9, 0x1A9, 1, 0x283); (0x1AC, 0x1AC, 1, 0x1AD); (0x1AE, 0x1AE, 1, 0x288);
  (0x1AF, 0x1AF, 1, 0x1B0); (0x1B1, 0x1B2, 1, 0x28A); (0x1B3, 0x1B5, 2, 0x1B4);
  (0x1B7, 0x1B7, 1, 0x292); (0x1B8, 0x1B8, 1, 0x1B9); (0x1BC, 0x1BC, 1, 0x1BD);
  (0x1C4, 0x1C4, 1, 0x1C6); (0x1C5, 0x1C5, 1, 0x1C6); (0x1C7, 0x1C7, 1, 0x1C9);
  (0x1C8, 0x1C8, 1, 0x1C9); (0x1CA, 0x1CA, 1, 0x1CC); (0x1CB, 0x1DB, 2, 0x1CC);
  (0x1DE, 0x1EE, 2, 0x1DF); (0x1F1, 0x1F1, 1, 0x1F3); (0x1F2, 0x1F4, 2, 0x1F3);
  (0x1F6, 0x1F6, 1, 0x195); (0x1F7, 0x1F7, 1, 0x1BF); (0x1F8, 0x21E, 2, 0x1F9);
  (0x220, 0x220, 1, 0x19E); (0x222, 0x232, 2, 0x223); (0x23A, 0x23A, 1, 0x2C65);
  (0x23B, 0x23B, 1, 0x23C); (0x23D, 0x23D, 1, 0x19A); (0x23E, 0x23E, 1, 0x2C66);
  (0x241, 0x241, 1, 0x242); (0x243, 0x243, 1, 0x180); (0x244, 0x244, 1, 0x289);
  (0x245, 0x245, 1, 0x28C); (0x246, 0x24E, 2, 0x247); (0x370, 0x372, 2, 0x371);
  (0x376, 0x376, 1, 0x377); (0x37F, 0x37F, 1, 0x3F3); (0x386, 0x386, 1, 0x3AC);
  (0x388, 0x38A, 1, 0x3AD); (0x38C, 0x38C, 1, 0x3CC); (0x38E, 0x38F, 1, 0x3CD);
  (0x391, 0x3A1, 1, 0x3B1); (0x3A3, 0x3AB, 1, 0x3C3); (0x3CF, 0x3CF, 1, 0x3D7);
  (0x3D8, 0x3EE, 2, 0x3D9); (0x3F4, 0x3F4, 1, 0x3B8); (0x3F7, 0x3F7, 1, 0x3F8);
  (0x3F9, 0x3F9, 1, 0x3F2); (0x3FA, 0x3FA, 1, 0x3FB); (0x3FD, 0x3FF, 1, 0x37B);
  (0x400, 0x40F, 1, 0x450); (0x410, 0x42F, 1, 0x430); (0x460, 0x480, 2, 0x461);
  (0x48A, 0x4BE, 2, 0x48B); (0x4C0, 0x4C0, 1, 0x4CF); (0x4C1, 0x4CD, 2, 0x4C2);
  (0x4D0, 0x52E, 2, 0x4D1); (0x531, 0x556, 1, 0x561); (0x10A0, 0x10C5, 1, 0x2D00);
  (0x10C7, 0x10C7, 1, 0x2D27); (0x10CD, 0x10CD, 1, 0x2D2D); (0x13A0, 0x13EF, 1, 0xAB70);
  (0x13F0, 0x13F5, 1, 0x13F8); (0x1C90, 0x1CBA, 1, 0x10D0); (0x1CBD, 0x1CBF, 1, 0x10FD);
  (0x1E00, 0x1E94, 2, 0x1E01); (0x1E9E, 0x1E9E, 1, 0xDF); (0x1EA0, 0x1EFE, 2, 0x1EA1);
  (0x1F08, 0x1F0F, 1, 0x1F00); (0x1F18, 0x1F1D, 1, 0x1F10); (0x1F28, 0x1F2F, 1, 0x1F20);
  (0x1F38, 0x1F3F, 1, 0x1F30); (0x1F48, 0x1F4D, 1, 0x1F40); (0x1F59, 0x1F5F, 2, 0x1F51);
  (0x1F68, 0x1F6F, 1, 0x1F60); (0x1F88, 0x1F8F, 1, 0x1F80); (0x1F98, 0x1F9F, 1, 0x1F90);
  (0x1FA8, 0x1FAF, 1, 0x1FA0); (0x1FB8, 0x1FB9, 1, 0x1FB0); (0x1FBA, 0x1FBB, 1, 0x1F70);
  (0x1FBC, 0x1FBC, 1, 0x1FB3); (0x1FC8, 0x1FCB, 1, 0x1F72); (0x1FCC, 0x1FCC, 1, 0x1FC3);
  (0x1FD8, 0x1FD9, 1, 0x1FD0); (0x1FDA, 0x1FDB, 1, 0x1F76); (0x1FE8, 0x1FE9, 1, 0x1FE0);
  (0x1FEA, 0x1FEB, 1, 0x1F7A); (0x1FEC, 0x1FEC, 1, 0x1FE5); (0x1FF8, 0x1FF9, 1, 0x1F78);
  (0x1FFA, 0x1FFB, 1, 0x1F7C); (0x1FFC, 0x1FFC, 1, 0x1FF3); (0x2126, 0x2126, 1, 0x3C9);
  (0x212A, 0x212A, 1, 0x6B); (0x212B, 0x212B, 1, 0xE5); (0x2132, 0x2132, 1, 0x214E);
  (0x2160, 0x216F, 1, 0x2170); (0x2183, 0x2183, 1, 0x2184); (0x24B6, 0x24CF, 1, 0x24D0);
  (0x2C00, 0x2C2F, 1, 0x2C30); (0x2C60, 0x2C60, 1, 0x2C61); (0x2C62, 0x2C62, 1, 0x26B);
  (0x2C63, 0x2C63, 1, 0x1D7D); (0x2C64, 0x2C64, 1, 0x27D); (0x2C67, 0x2C6B, 2, 0x2C68);
  (0x2C6D, 0x2C6D, 1, 0x251); (0x2C6E, 0x2C6E, 1, 0x271); (0x2C6F, 0x2C6F, 1, 0x250);
  (0x2C70, 0x2C70, 1, 0x252); (0x2C72, 0x2C72, 1, 0x2C73); (0x2C75, 0x2C75, 1, 0x2C76);
  (0x2C7E, 0x2C7F, 1, 0x23F); (0x2C80, 0x2CE2, 2, 0x2C81); (0x2CEB, 0x2CED, 2, 0x2CEC);
  (0x2CF2, 0x2CF2, 1, 0x2CF3); (0xA640, 0xA66C, 2, 0xA641); (0xA680, 0xA69A, 2, 0xA681);
  (0xA722, 0xA72E, 2, 0xA723); (0xA732, 0xA76E, 2, 0xA733); (0xA779, 0xA77B, 2, 0xA77A);
  (0xA77D, 0xA77D, 1, 0x1D79); (0xA77E, 0xA786, 2, 0xA77F); (0xA78B, 0xA78B, 1, 0xA78C);
  (0xA78D, 0xA78D, 1, 0x265); (0xA790, 0xA792, 2, 0xA791); (0xA796, 0xA7A8, 2, 0xA797);
  (0xA7AA, 0xA7AA, 1, 0x266); (0xA7AB, 0xA7AB, 1, 0x25C); (0xA7AC, 0xA7AC, 1, 0x261);
  (0xA7AD, 0xA7AD, 1, 0x26C); (0xA7AE, 0xA7AE, 1, 0x26A); (0xA7B0, 0xA7B0, 1, 0x29E);
  (0xA7B1, 0xA7B1, 1, 0x287); (0xA7B2, 0xA7B2, 1, 0x29D); (0xA7B3, 0xA7B3, 1, 0xAB53);
  (0xA7B4, 0xA7C2, 2, 0xA7B5); (0xA7C4, 0xA7C4, 1, 0xA794); (0xA7C5, 0xA7C5, 1, 0x282);
  (0xA7C6, 0xA7C6, 1, 0x1D8E); (0xA7C7, 0xA7C9, 2, 0xA7C8); (0xA7D0, 0xA7D0, 1, 0xA7D1);
  (0xA7D6, 0xA7D8, 2, 0xA7D7); (0xA7F5, 0xA7F5, 1, 0xA7F6); (0xFF21, 0xFF3A, 1, 0xFF41);
  (0x10400, 0x10427, 1, 0x10428); (0x104B0, 0x104D3, 1, 0x104D8); (0x10570, 0x1057A, 1, 0x10597);
  (0x1057C, 0x1058A, 1, 0x105A3); (0x1058C, 0x10592, 1, 0x105B3); (0x10594, 0x10595, 1, 0x105BB);
  (0x10C80, 0x10CB2, 1, 0x10CC0); (0x118A0, 0x118BF, 1, 0x118C0); (0x16E40, 0x16E5F, 1, 0x16E60);
  (0x1E900, 0x1E921, 1, 0x1E922)
]%N.

(** The case-ignorable code points. *)
Definition case_ignorable_ranges : list (N * N) := [
  (0x27, 0x27); (0x2E, 0x2E); (0x3A, 0x3A); (0x5E, 0x5E); (0x60, 0x60);
  (0xA8, 0xA8); (0xAD, 0xAD); (0xAF, 0xAF); (0xB4, 0xB4); (0xB7, 0xB8);
  (0x2B0, 0x36F); (0x374, 0x375); (0x37A, 0x37A); (0x384, 0x385); (0x387, 0x387);
  (0x483, 0x489); (0x559, 0x559); (0x55F, 0x55F); (0x591, 0x5BD); (0x5BF, 0x5BF);
  (0x5C1, 0x5C2); (0x5C4, 0x5C5); (0x5C7, 0x5C7); (0x5F4, 0x5F4); (0x600, 0x605);
  (0x610, 0x61A); (0x61C, 0x61C); (0x640, 0x640); (0x64B, 0x65F); (0x670, 0x670);
  (0x6D6, 0x6DD); (0x6DF, 0x6E8); (0x6EA, 0x6ED); (0x70F, 0x70F); (0x711, 0x711);
  (0x730, 0x74A); (0x7A6, 0x7B0); (0x7EB, 0x7F5); (0x7FA, 0x7FA); (0x7FD, 0x7FD);
  (0x816, 0x82D); (0x859, 0x85B); (0x888, 0x888); (0x890, 0x891); (0x898, 0x89F);
  (0x8C9, 0x902); (0x93A, 0x93A); (0x93C, 0x93C); (0x941, 0x948); (0x94D, 0x94D);
  (0x951, 0x957); (0x962, 0x963); (0x971, 0x971); (0x981, 0x981); (0x9BC, 0x9BC);
  (0x9C1, 0x9C4); (0x9CD, 0x9CD); (0x9E2, 0x9E3); (0x9FE, 0x9FE); (0xA01, 0xA02);
  (0xA3C, 0xA3C); (0xA41, 0xA42); (0xA47, 0xA48); (0xA4B, 0xA4D); (0xA51, 0xA51);
  (0xA70, 0xA71); (0xA75, 0xA75); (0xA81, 0xA82); (0xABC, 0xABC); (0xAC1, 0xAC5);
  (0xAC7, 0xAC8); (0xACD, 0xACD); (0xAE2, 0xAE3); (0xAFA, 0xAFF); (0xB01, 0xB01);
  (0xB3C, 0xB3C); (0xB3F, 0xB3F); (0xB41, 0xB44); (0xB4D, 0xB4D); (0xB55, 0xB56);
  (0xB62, 0xB63); (0xB82, 0xB82); (0xBC0, 0xBC0); (0xBCD, 0xBCD); (0xC00, 0xC00);
  (0xC04, 0xC04); (0xC3C, 0xC3C); (0xC3E, 0xC40); (0xC46, 0xC48); (0xC4A, 0xC4D);
  (0xC55, 0xC56); (0xC62, 0xC63); (0xC81, 0xC81); (0xCBC, 0xCBC); (0xCBF, 0xCBF);
  (0xCC6, 0xCC6); (0xCCC, 0xCCD); (0xCE2, 0xCE3); (0xD00, 0xD01); (0xD3B, 0xD3C);
  (0xD41, 0xD44); (0xD4D, 0xD4D); (0xD62, 0xD63); (0xD81, 0xD81); (0xDCA, 0xDCA);
  (0xDD2, 0xDD4); (0xDD6, 0xDD6); (0xE31, 0xE31); (0xE34, 0xE3A); (0xE46, 0xE4E);
  (0xEB1, 0xEB1); (0xEB4, 0xEBC); (0xEC6, 0xEC6); (0xEC8, 0xECD); (0xF18, 0xF19);
  (0xF35, 0xF35); (0xF37, 0xF37); (0xF39, 0xF39); (0xF71, 0xF7E); (0xF80, 0xF84);
  (0xF86, 0xF87); (0xF8D, 0xF97); (0xF99, 0xFBC); (0xFC6, 0xFC6); (0x102D, 0x1030);
  (0x1032, 0x1037); (0x1039, 0x103A); (0x103D, 0x103E); (0x1058, 0x1059); (0x105E, 0x1060);
  (0x1071, 0x1074); (0x1082, 0x1082); (0x1085, 0x1086); (0x108D, 0x108D); (0x109D, 0x109D);
  (0x10FC, 0x10FC); (0x135D, 0x135F); (0x1712, 0x1714); (0x1732, 0x1733); (0x1752, 0x1753);
  (0x1772, 0x1773); (0x17B4, 0x17B5); (0x17B7, 0x17BD); (0x17C6, 0x17C6); (0x17C9, 0x17D3);
  (0x17D7, 0x17D7); (0x17DD, 0x17DD); (0x180B, 0x180F); (0x1843, 0x1843); (0x1885, 0x1886);
  (0x18A9, 0x18A9); (0x1920, 0x1922); (0x1927, 0x1928); (0x1932, 0x1932); (0x1939, 0x193B);
  (0x1A17, 0x1A18); (0x1A1B, 0x1A1B); (0x1A56, 0x1A56); (0x1A58, 0x1A5E); (0x1A60, 0x1A60);
  (0x1A62, 0x1A62); (0x1A65, 0x1A6C); (0x1A73, 0x1A7C); (0x1A7F, 0x1A7F); (0x1AA7, 0x1AA7);
  (0x1AB0, 0x1ACE); (0x1B00, 0x1B03); (0x1B34, 0x1B34); (0x1B36, 0x1B3A); (0x1B3C, 0x1B3C);
  (0x1B42, 0x1B42); (0x1B6B, 0x1B73); (0x1B80, 0x1B81); (0x1BA2, 0x1BA5); (0x1BA8, 0x1BA9);
  (0x1BAB, 0x1BAD); (0x1BE6, 0x1BE6); (0x1BE8, 0x1BE9); (0x1BED, 0x1BED); (0x1BEF, 0x1BF1);
  (0x1C2C, 0x1C33); (0x1C36, 0x1C37); (0x1C78, 0x1C7D); (0x1CD0, 0x1CD2); (0x1CD4, 0x1CE0);
  (0x1CE2, 0x1CE8); (0x1CED, 0x1CED); (0x1CF4, 0x1CF4); (0x1CF8, 0x1CF9); (0x1D2C, 0x1D6A);
  (0x1D78, 0x1D78); (0x1D9B, 0x1DFF); (0x1FBD, 0x1FBD); (0x1FBF, 0x1FC1); (0x1FCD, 0x1FCF);
  (0x1FDD, 0x1FDF); (0x1FED, 0x1FEF); (0x1FFD, 0x1FFE); (0x200B, 0x200F); (0x2018, 0x2019);
  (0x2024, 0x2024); (0x2027, 0x2027); (0x202A, 0x202E); (0x2060, 0x2064); (0x2066, 0x206F);
  (0x2071, 0x2071); (0x207F, 0x207F); (0x2090, 0x209C); (0x20D0, 0x20F0); (0x2C7C, 0x2C7D);
  (0x2CEF, 0x2CF1); (0x2D6F, 0x2D6F); (0x2D7F, 0x2D7F); (0x2DE0, 0x2DFF); (0x2E2F, 0x2E2F);
  (0x3005, 0x3005); (0x302A, 0x302D); (0x3031, 0x3035); (0x303B, 0x303B); (0x3099, 0x309E);
  (0x30FC, 0x30FE); (0xA015, 0xA015); (0xA4F8, 0xA4FD); (0xA60C, 0xA60C); (0xA66F, 0xA672);
  (0xA674, 0xA67D); (0xA67F, 0xA67F); (0xA69C, 0xA69F); (0xA6F0, 0xA6F1); (0xA700, 0xA721);
  (0xA770, 0xA770); (0xA788, 0xA78A); (0xA7F2, 0xA7F4); (0xA7F8, 0xA7F9); (0xA802, 0xA802);
  (0xA806, 0xA806); (0xA80B, 0xA80B); (0xA825, 0xA826); (0xA82C, 0xA82C); (0xA8C4, 0xA8C5);
  (0xA8E0, 0xA8F1); (0xA8FF, 0xA8FF); (0xA926, 0xA92D); (0xA947, 0xA951); (0xA980, 0xA982);
  (0xA9B3, 0xA9B3); (0xA9B6, 0xA9B9); (0xA9BC, 0xA9BD); (0xA9CF, 0xA9CF); (0xA9E5, 0xA9E6);
  (0xAA29, 0xAA2E); (0xAA31, 0xAA32); (0xAA35, 0xAA36); (0xAA43, 0xAA43); (0xAA4C, 0xAA4C);
  (0xAA70, 0xAA70); (0xAA7C, 0xAA7C); (0xAAB0, 0xAAB0); (0xAAB2, 0xAAB4); (0xAAB7, 0xAAB8);
  (0xAABE, 0xAABF); (0xAAC1, 0xAAC1); (0xAADD, 0xAADD); (0xAAEC, 0xAAED); (0xAAF3, 0xAAF4);
  (0xAAF6, 0xAAF6); (0xAB5B, 0xAB5F); (0xAB69, 0xAB6B); (0xABE5, 0xABE5); (0xABE8, 0xABE8);
  (0xABED, 0xABED); (0xFB1E, 0xFB1E); (0xFBB2, 0xFBC2); (0xFE00, 0xFE0F); (0xFE13, 0xFE13);
  (0xFE20, 0xFE2F); (0xFE52, 0xFE52); (0xFE55, 0xFE55); (0xFEFF, 0xFEFF); (0xFF07, 0xFF07);
  (0xFF0E, 0xFF0E); (0xFF1A, 0xFF1A); (0xFF3E, 0xFF3E); (0xFF40, 0xFF40); (0xFF70, 0xFF70);
  (0xFF9E, 0xFF9F); (0xFFE3, 0xFFE3); (0xFFF9, 0xFFFB); (0x101FD, 0x101FD); (0x102E0, 0x102E0);
  (0x10376, 0x1037A); (0x10780, 0x10785); (0x10787, 0x107B0); (0x107B2, 0x107BA); (0x10A01, 0x10A03);
  (0x10A05, 0x10A06); (0x10A0C, 0x10A0F); (0x10A38, 0x10A3A); (0x10A3F, 0x10A3F); (0x10AE5, 0x10AE6);
  (0x10D24, 0x10D27); (0x10EAB, 0x10EAC); (0x10F46, 0x10F50); (0x10F82, 0x10F85); (0x11001, 0x11001);
  (0x11038, 0x11046); (0x11070, 0x11070); (0x11073, 0x11074); (0x1107F, 0x11081); (0x110B3, 0x110B6);
  (0x110B9, 0x110BA); (0x110BD, 0x110BD); (0x110C2, 0x110C2); (0x110CD, 0x110CD); (0x11100, 0x11102);
  (0x11127, 0x1112B); (0x1112D, 0x11134); (0x11173, 0x11173); (0x11180, 0x11181); (0x111B6, 0x111BE);
  (0x111C9, 0x111CC); (0x111CF, 0x111CF); (0x1122F, 0x11231); (0x11234, 0x11234); (0x11236, 0x11237);
  (0x1123E, 0x1123E); (0x112DF, 0x112DF); (0x112E3, 0x112EA); (0x11300, 0x11301); (0x1133B, 0x1133C);
  (0x11340, 0x11340); (0x11366, 0x1136C); (0x11370, 0x11374); (0x11438, 0x1143F); (0x11442, 0x11444);
  (0x11446, 0x11446); (0x1145E, 0x1145E); (0x114B3, 0x114B8); (0x114BA, 0x114BA); (0x114BF, 0x114C0);
  (0x114C2, 0x114C3); (0x115B2, 0x115B5); (0x115BC, 0x115BD); (0x115BF, 0x115C0); (0x115DC, 0x115DD);
  (0x11633, 0x1163A); (0x1163D, 0x1163D); (0x1163F, 0x11640); (0x116AB, 0x116AB); (0x116AD, 0x116AD);
  (0x116B0, 0x116B5); (0x116B7, 0x116B7); (0x1171D, 0x1171F); (0x11722, 0x11725); (0x11727, 0x1172B);
  (0x1182F, 0x11837); (0x11839, 0x1183A); (0x1193B, 0x1193C); (0x1193E, 0x1193E); (0x11943, 0x11943);
  (0x119D4, 0x119D7); (0x119DA, 0x119DB); (0x119E0, 0x119E0); (0x11A01, 0x11A0A); (0x11A33, 0x11A38);
  (0x11A3B, 0x11A3E); (0x11A47, 0x11A47); (0x11A51, 0x11A56); (0x11A59, 0x11A5B); (0x11A8A, 0x11A96);
  (0x11A98, 0x11A99); (0x11C30, 0x11C36); (0x11C38, 0x11C3D); (0x11C3F, 0x11C3F); (0x11C92, 0x11CA7);
  (0x11CAA, 0x11CB0); (0x11CB2, 0x11CB3); (0x11CB5, 0x11CB6); (0x11D31, 0x11D36); (0x11D3A, 0x11D3A);
  (0x11D3C, 0x11D3D); (0x11D3F, 0x11D45); (0x11D47, 0x11D47); (0x11D90, 0x11D91); (0x11D95, 0x11D95);
  (0x11D97, 0x11D97); (0x11EF3, 0x11EF4); (0x13430, 0x13438); (0x16AF0, 0x16AF4); (0x16B30, 0x16B36);
  (0x16B40, 0x16B43); (0x16F4F, 0x16F4F); (0x16F8F, 0x16F9F); (0x16FE0, 0x16FE1); (0x16FE3, 0x16FE4);
  (0x1AFF0, 0x1AFF3); (0x1AFF5, 0x1AFFB); (0x1AFFD, 0x1AFFE); (0x1BC9D, 0x1BC9E); (0x1BCA0, 0x1BCA3);
  (0x1CF00, 0x1CF2D); (0x1CF30, 0x1CF46); (0x1D167, 0x1D169); (0x1D173, 0x1D182); (0x1D185, 0x1D18B);
  (0x1D1AA, 0x1D1AD); (0x1D242, 0x1D244); (0x1DA00, 0x1DA36); (0x1DA3B, 0x1DA6C); (0x1DA75, 0x1DA75);
  (0x1DA84, 0x1DA84); (0x1DA9B, 0x1DA9F); (0x1DAA1, 0x1DAAF); (0x1E000, 0x1E006); (0x1E008, 0x1E018);
  (0x1E01B, 0x1E021); (0x1E023, 0x1E024); (0x1E026, 0x1E02A); (0x1E130, 0x1E13D); (0x1E2AE, 0x1E2AE);
  (0x1E2EC, 0x1E2EF); (0x1E8D0, 0x1E8D6); (0x1E944, 0x1E94B); (0x1F3FB, 0x1F3FF); (0xE0001, 0xE0001);
  (0xE0020, 0xE007F); (0xE0100, 0xE01EF)
]%N.

(** The cased code points that are not case-ignorable (one that is both is
    passed over before the test for a cased letter). *)
Definition cased_ranges : list (N * N) := [
  (0x41, 0x5A); (0x61, 0x7A); (0xAA, 0xAA); (0xB5, 0xB5); (0xBA, 0xBA);
  (0xC0, 0xD6); (0xD8, 0xF6); (0xF8, 0x1BA); (0x1BC, 0x1BF); (0x1C4, 0x293);
  (0x295, 0x2AF); (0x370, 0x373); (0x376, 0x377); (0x37B, 0x37D); (0x37F, 0x37F);
  (0x386, 0x386); (0x388, 0x38A); (0x38C, 0x38C); (0x38E, 0x3A1); (0x3A3, 0x3F5);
  (0x3F7, 0x481); (0x48A, 0x52F); (0x531, 0x556); (0x560, 0x588); (0x10A0, 0x10C5);
  (0x10C7, 0x10C7); (0x10CD, 0x10CD); (0x10D0, 0x10FA); (0x10FD, 0x10FF); (0x13A0, 0x13F5);
  (0x13F8, 0x13FD); (0x1C80, 0x1C88); (0x1C90, 0x1CBA); (0x1CBD, 0x1CBF); (0x1D00, 0x1D2B);
  (0x1D6B, 0x1D77); (0x1D79, 0x1D9A); (0x1E00, 0x1F15); (0x1F18, 0x1F1D); (0x1F20, 0x1F45);
  (0x1F48, 0x1F4D); (0x1F50, 0x1F57); (0x1F59, 0x1F59); (0x1F5B, 0x1F5B); (0x1F5D, 0x1F5D);
  (0x1F5F, 0x1F7D); (0x1F80, 0x1FB4); (0x1FB6, 0x1FBC); (0x1FBE, 0x1FBE); (0x1FC2, 0x1FC4);
  (0x1FC6, 0x1FCC); (0x1FD0, 0x1FD3); (0x1FD6, 0x1FDB); (0x1FE0, 0x1FEC); (0x1FF2, 0x1FF4);
  (0x1FF6, 0x1FFC); (0x2102, 0x2102); (0x2107, 0x2107); (0x210A, 0x2113); (0x2115, 0x2115);
  (0x2119, 0x211D); (0x2124, 0x2124); (0x2126, 0x2126); (0x2128, 0x2128); (0x212A, 0x212D);
  (0x212F, 0x2134); (0x2139, 0x2139); (0x213C, 0x213F); (0x2145, 0x2149); (0x214E, 0x214E);
  (0x2160, 0x217F); (0x2183, 0x2184); (0x24B6, 0x24E9); (0x2C00, 0x2C7B); (0x2C7E, 0x2CE4);
  (0x2CEB, 0x2CEE); (0x2CF2, 0x2CF3); (0x2D00, 0x2D25); (0x2D27, 0x2D27); (0x2D2D, 0x2D2D);
  (0xA640, 0xA66D); (0xA680, 0xA69B); (0xA722, 0xA76F); (0xA771, 0xA787); (0xA78B, 0xA78E);
  (0xA790, 0xA7CA); (0xA7D0, 0xA7D1); (0xA7D3, 0xA7D3); (0xA7D5, 0xA7D9); (0xA7F5, 0xA7F6);
  (0xA7FA, 0xA7FA); (0xAB30, 0xAB5A); (0xAB60, 0xAB68); (0xAB70, 0xABBF); (0xFB00, 0xFB06);
  (0xFB13, 0xFB17); (0xFF21, 0xFF3A); (0xFF41, 0xFF5A); (0x10400, 0x1044F); (0x104B0, 0x104D3);
  (0x104D8, 0x104FB); (0x10570, 0x1057A); (0x1057C, 0x1058A); (0x1058C, 0x10592); (0x10594, 0x10595);
  (0x10597, 0x105A1); (0x105A3, 0x105B1); (0x105B3, 0x105B9); (0x105BB, 0x105BC); (0x10C80, 0x10CB2);
  (0x10CC0, 0x10CF2); (0x118A0, 0x118DF); (0x16E40, 0x16E7F); (0x1D400, 0x1D454); (0x1D456, 0x1D49C);
  (0x1D49E, 0x1D49F); (0x1D4A2, 0x1D4A2); (0x1D4A5, 0x1D4A6); (0x1D4A9, 0x1D4AC); (0x1D4AE, 0x1D4B9);
  (0x1D4BB, 0x1D4BB); (0x1D4BD, 0x1D4C3); (0x1D4C5, 0x1D505); (0x1D507, 0x1D50A); (0x1D50D, 0x1D514);
  (0x1D516, 0x1D51C); (0x1D51E, 0x1D539); (0x1D53B, 0x1D53E); (0x1D540, 0x1D544); (0x1D546, 0x1D546);
  (0x1D54A, 0x1D550); (0x1D552, 0x1D6A5); (0x1D6A8, 0x1D6C0); (0x1D6C2, 0x1D6DA); (0x1D6DC, 0x1D6FA);
  (0x1D6FC, 0x1D714); (0x1D716, 0x1D734); (0x1D736, 0x1D74E); (0x1D750, 0x1D76E); (0x1D770, 0x1D788);
  (0x1D78A, 0x1D7A8); (0x1D7AA, 0x1D7C2); (0x1D7C4, 0x1D7CB); (0x1DF00, 0x1DF09); (0x1DF0B, 0x1DF1E);
  (0x1E900, 0x1E943); (0x1F130, 0x1F149); (0x1F150, 0x1F169); (0x1F170, 0x1F189)
]%N.

Definition in_ranges (ranges : list (N * N)) (c : N) : bool :=
  existsb (λ r, (r.1 <=? c)%N && (c <=? r.2)%N) ranges.

Definition case_ignorable (c : N) : bool := in_ranges case_ignorable_ranges c.
Definition cased (c : N) : bool := in_ranges cased_ranges c.

Fixpoint lookup_lower (rules : list (N * N * N * N)) (c : N) : N :=
  match rules with
  | [] => c
  | (lo, hi, stride, target) :: rules' =>
      if (lo <=? c)%N && (c <=? hi)%N && ((c - lo) mod stride =? 0)%N
      then (target + (c - lo))%N
      else lookup_lower rules' c
  end.

Definition simple_lower (c : N) : N := lookup_lower lowercase_ranges c.

Definition is_lead (u : code_unit) : bool := (0xD800 <=? u)%N && (u <=? 0xDBFF)%N.
Definition is_trail (u : code_unit) : bool := (0xDC00 <=? u)%N && (u <=? 0xDFFF)%N.

(** The code points of a string: a lead surrogate followed by a trail
    surrogate is one code point, any other code unit is one by itself. *)
Fixpoint code_points (s : str) : list N :=
  match s with
  | [] => []
  | u :: s' =>
      match s' with
      | v :: s'' =>
          if is_lead u && is_trail v
          then (0x10000 + (u - 0xD800) * 0x400 + (v - 0xDC00))%N :: code_points s''
          else u :: code_points s'
      | [] => [u]
      end
  end.

(** The code units of a code point. *)
Definition units_of (c : N) : str :=
  if (c <? 0x10000)%N then [c]
  else [(0xD800 + (c - 0x10000) / 0x400)%N; (0xDC00 + (c - 0x10000) mod 0x400)%N].

Fixpoint skip_ignorable (s : list N) : list N :=
  match s with
  | [] => []
  | c :: s' => if case_ignorable c then skip_ignorable s' else s
  end.

(** Final_Sigma: before the sigma, past any case-ignorable code points,
    stands a cased letter, and after it, past any case-ignorable code
    points, stands none.  [before] lists the preceding code points, the
    nearest first. *)
Definition final_sigma (before after : list N) : bool :=
  match skip_ignorable before with
  | c :: _ => cased c
  | [] => false
  end
  && match skip_ignorable after with
     | c :: _ => negb (cased c)
     | [] => true
     end.

Fixpoint lower_points (before s : list N) : list N :=
  match s with
  | [] => []
  | c :: after =>
      (if (c =? 0x3A3)%N
       then [if final_sigma before after then 0x3C2%N else 0x3C3%N]
       else if (c =? 0x130)%N then [0x69%N; 0x307%N]
       else [simple_lower c])
      ++ lower_points (c :: before) after
  end.

Definition toLowerCase (s : str) : str :=
  concat (units_of <$> lower_points [] (code_points s)).

(** White space and line terminators of ECMAScript: TAB, LF, VT, FF, CR,
    the space separators of Unicode, the line and paragraph separators, and
    the byte order mark. *)
Definition is_space (c : code_unit) : bool :=
  ((9 <=? c)%N && (c <=? 13)%N) || (c =? 0x20)%N || (c =? 0xA0)%N
  || (c =? 0x1680)%N || ((0x2000 <=? c)%N && (c <=? 0x200A)%N)
  || (c =? 0x2028)%N || (c =? 0x2029)%N || (c =? 0x202F)%N
  || (c =? 0x205F)%N || (c =? 0x3000)%N || (c =? 0xFEFF)%N.

Fixpoint trimStart (s : str) : str :=
  match s with
  | [] => []
  | c :: s' => if is_space c then trimStart s' else s
  end.

Definition trimEnd (s : str) : str := reverse (trimStart (reverse s)).

Definition trim (s : str) : str := trimEnd (trimStart s).

(** Truthiness of a string: the empty string is the only falsy one. *)
Definition truthy (s : str) : bool :=
  match s with [] => false | _ => true end.

(** [s.split(c)] for a one-character separator. *)
Fixpoint split (c : code_unit) (s : str) : list str :=
  match s with
  | [] => [[]]
  | x :: s' =>
      if bool_decide (x = c) then [] :: split c s'
      else match split c s' with
           | [] => [[x]]
           | h :: t => (x :: h) :: t
           end
  end.

(** [parts.join(sep)] *)
Fixpoint join (sep : str) (parts : list str) : str :=
  match parts with
  | [] => []
  | [p] => p
  | p :: ps => p ++ sep ++ join sep ps
  end.

(** [n.toString()] of an integer: decimal digits, a leading minus sign
    when negative. *)
Definition toString (n : Z) : str :=
  lit (NilZero.string_of_int (Z.to_int n)).

(** *** The mention pattern [/@\[([^\]]+)\]/g]

    [span_title] is the greedy class [[^\]]+]: the longest run of
    characters other than the closing bracket.  Giving characters back
    cannot help the match: the character after a shorter run is one of the
    run, not a closing bracket. *)
Fixpoint span_title (s : str) : str * str :=
  match s with
  | [] => ([], [])
  | c :: s' =>
      if bool_decide (c = (cu "]")) then ([], s)
      else let '(t, r) := span_title s' in (c :: t, r)
  end.

(** One attempt of the pattern at the start of [s]; the capture group. *)
Definition exec_at (s : str) : option str :=
  match s with
  | a :: b :: s' =>
      if bool_decide (a = (cu "@")) && bool_decide (b = (cu "[")) then
        match span_title s' with
        | ((_ :: _) as t, _ :: _) => Some t
        | _ => None
        end
      else None
  | _ => None
  end.

(** [[...s.matchAll(re)].map(m => m[1])]: attempts go left to right; after
    a match the scan resumes at its end ([skip] counts the characters of
    the last match still to pass, the pattern's [lastIndex]), after a
    failure one character further. *)
Fixpoint matchAll_from (s : str) (skip : nat) : list str :=
  match s with
  | [] => []
  | _ :: s' =>
      match skip with
      | S k => matchAll_from s' k
      | O =>
          match exec_at s with
          | Some t => t :: matchAll_from s' (length t + 2)
          | None => matchAll_from s' 0
          end
      end
  end.

Definition matchAll_titles (s : str) : list str := matchAll_from s 0.

End JS.

Import JS.

(** ** Data model *)

Record KnowledgeBase := {
  kb_id : str;
  kb_title : str;
  kb_content : str;
  kb_tags : list str
}.

Inductive Role := user | assistant | system.

Record Message := {
  msg_id : str;
  msg_role : Role;
  msg_content : str;
  msg_timestamp : Z;
  msg_usedContext : option (list str)
}.

Inductive View := chat | knowledge.

#[global] Instance KnowledgeBase_eq_dec : EqDecision KnowledgeBase.
Proof. solve_decision. Defined.

#[global] Instance View_eq_dec : EqDecision View.
Proof. solve_decision. Defined.

(** ** Mock AI logic *)

Definition MOCK_AI_RESPONSES : list str := [
  lit "That's an interesting point. Tell me more.";
  lit "I can certainly help with that based on the context provided.";
  lit "Here's a summary of what I found in your knowledge base.";
  lit "Could you clarify exactly what you mean?";
  lit "Let me analyze that information for you."
].

(** [arr.includes(x)] on an array of strings. *)
Definition array_includes (arr : list str) (x : str) : bool :=
  bool_decide (x ∈ arr).

(** The first three statements of the timer callback of [generateResponse]:
    the mentioned titles and the entries they select. *)
Definition mentionedTitles (userMessage : str) : list str :=
  matchAll_titles userMessage.

Definition usedKBs (userMessage : str) (knowledgeBases : list KnowledgeBase)
  : list KnowledgeBase :=
  filter (λ kb, array_includes (mentionedTitles userMessage) (kb_title kb))
         knowledgeBases.

(** A template literal [`"${s}"`]. *)
Definition quoted (s : str) : str := dquote :: s ++ [dquote].

(** [arr[i]] interpolated in a template literal: a missing element prints
    as [undefined]. *)
Definition element_text (arr : list str) (i : nat) : str :=
  default (lit "undefined") (arr !! i).

Record Response := {
  text : str;
  usedContext : list str
}.

(** How a promise settles. *)
Inductive Settled (A : Type) :=
| Resolved (a : A)
| Rejected.
Arguments Resolved {A} a.
Arguments Rejected {A}.

(** [generateResponse]: [choice] is the value of
    [Math.floor(Math.random() * MOCK_AI_RESPONSES.length)]; the delay of the
    timer is the moment the event [Settle] below happens.  The executor only
    ever calls [resolve]. *)
Definition generateResponse (userMessage : str)
    (knowledgeBases : list KnowledgeBase) (choice : nat) : Settled Response :=
  let used := usedKBs userMessage knowledgeBases in
  let responseText :=
    match used with
    | first :: _ =>
        let contextSummary := join (lit " and ") (quoted ∘ kb_title <$> used) in
        lit "I've analyzed the content from " ++ contextSummary
          ++ lit ". " ++ [newline; newline]
          ++ lit "Based on that knowledge: " ++ element_text MOCK_AI_RESPONSES choice
          ++ [newline; newline]
          ++ lit "(Context used: " ++ substring (kb_content first) 0 50 ++ lit "...)"
    | [] =>
        lit "I received your message: " ++ quoted userMessage
          ++ lit ". I didn't see any specific knowledge base tagged, so I'm answering with my general training."
    end in
  Resolved {| text := responseText; usedContext := kb_id <$> used |}.

(** ** Application state

    [App] owns the view, the knowledge bases and the messages;
    [ChatInterface] owns the composer; [KnowledgeManager] owns the creation
    form.  [App] renders one of the two at a time, so the composer is that
    of the [ChatInterface] mounted now, [chatInstance] tells the mountings
    apart, and while the knowledge view is shown the composer is the
    initial one the next mounting starts from.  [inflight] lists the
    response generations started and not yet settled, each with the
    arguments its call captured and the instance that started it. *)

Record Composer := {
  input : str;
  isTyping : bool;
  mentionQuery : option str;
  mentionIndex : Z
}.

Record Request := {
  req_message : str;
  req_knowledgeBases : list KnowledgeBase;
  req_instance : nat
}.

Record AppState := {
  view : View;
  knowledgeBases : list KnowledgeBase;
  messages : list Message;
  composer : Composer;
  chatInstance : nat;
  inflight : list Request
}.

Record Form := {
  isCreating : bool;
  newTitle : str;
  newContent : str;
  newTags : str
}.

Definition initialKnowledgeBases : list KnowledgeBase := [
  {| kb_id := lit "1"; kb_title := lit "Product Docs";
     kb_content := lit "The product allows users to chat with documents. It supports markdown and exports.";
     kb_tags := [lit "docs"; lit "manual"] |};
  {| kb_id := lit "2"; kb_title := lit "Marketing Copy";
     kb_content := lit "Our brand voice is friendly, professional, and concise. We use blue and white as primary colors.";
     kb_tags := [lit "brand"; lit "marketing"] |};
  {| kb_id := lit "3"; kb_title := lit "Q3 Financials";
     kb_content := lit "Revenue up 20% QoQ. Operating expenses stable. Key growth in enterprise sector.";
     kb_tags := [lit "finance"; lit "private"] |}
].

Definition initialComposer : Composer :=
  {| input := []; isTyping := false; mentionQuery := None; mentionIndex := -1 |}.

(** [now] is the clock reading when [App] is first rendered. *)
Definition initialState (now : Z) : AppState :=
  {| view := chat;
     knowledgeBases := initialKnowledgeBases;
     messages := [
       {| msg_id := lit "1"; msg_role := assistant;
          msg_content := lit "Hello! You can chat with me normally, or type '@' to reference a Knowledge Base.";
          msg_timestamp := now; msg_usedContext := None |} ];
     composer := initialComposer;
     chatInstance := 0;
     inflight := [] |}.

Definition initialForm : Form :=
  {| isCreating := false; newTitle := []; newContent := []; newTags := [] |}.

(** ** Knowledge store handlers ([App], [KnowledgeManager]) *)

(** [setView(v)]: setting the view it has changes nothing; a change of view
    unmounts the component shown and mounts the other, and a
    [ChatInterface] starts from its initial state. *)
Definition setView (v : View) (st : AppState) : AppState :=
  if bool_decide (view st = v) then st
  else
    {| view := v;
       knowledgeBases := knowledgeBases st;
       messages := messages st;
       composer := initialComposer;
       chatInstance := S (chatInstance st);
       inflight := inflight st |}.

Definition handleCreateKB (kb : KnowledgeBase) (st : AppState) : AppState :=
  setView knowledge
    {| view := view st;
       knowledgeBases := knowledgeBases st ++ [kb];
       messages := messages st;
       composer := composer st;
       chatInstance := chatInstance st;
       inflight := inflight st |}.

Definition handleDeleteKB (id : str) (st : AppState) : AppState :=
  {| view := view st;
     knowledgeBases := filter (λ k, kb_id k ≠ id) (knowledgeBases st);
     messages := messages st;
     composer := composer st;
     chatInstance := chatInstance st;
     inflight := inflight st |}.

(** [newTags.split(',').map(t => t.trim()).filter(Boolean)] *)
Definition parseTags (newTags : str) : list str :=
  filter (λ t, truthy t) (trim <$> split (cu ",") newTags).

(** [handleSubmit]; [now] is the value of [Date.now()]. *)
Definition handleSubmit (now : Z) (form : Form) (st : AppState) : Form * AppState :=
  if negb (truthy (trim (newTitle form))) || negb (truthy (trim (newContent form)))
  then (form, st)
  else
    (initialForm,
     handleCreateKB {| kb_id := toString now;
                       kb_title := newTitle form;
                       kb_content := newContent form;
                       kb_tags := parseTags (newTags form) |} st).

(** ** Composer handlers ([ChatInterface]) *)

Definition set_composer (c : Composer) (st : AppState) : AppState :=
  {| view := view st;
     knowledgeBases := knowledgeBases st;
     messages := messages st;
     composer := c;
     chatInstance := chatInstance st;
     inflight := inflight st |}.

Definition handleInputChange (newVal : str) (st : AppState) : AppState :=
  let lastAtPos := lastIndexOf newVal (cu "@") in
  let no_mention :=
    set_composer {| input := newVal; isTyping := isTyping (composer st);
                    mentionQuery := None; mentionIndex := -1 |} st in
  if negb (lastAtPos =? -1) then
    let textAfterAt := slice_from newVal (lastAtPos + 1) in
    if negb (includes textAfterAt (lit " ")) then
      set_composer {| input := newVal; isTyping := isTyping (composer st);
                      mentionQuery := Some textAfterAt;
                      mentionIndex := lastAtPos |} st
    else no_mention
  else no_mention.

(** What a handler call does: it returns, or it throws. *)
Inductive Completion (A : Type) :=
| Returns (a : A)
| Throws (error : str).
Arguments Returns {A} a.
Arguments Throws {A} error.

(** [handleSelectKB]: the non-null assertion [mentionQuery!] is erased by
    the compiler, so [.length] of [null] throws a [TypeError]. *)
Definition handleSelectKB (kb : KnowledgeBase) (st : AppState) : Completion AppState :=
  let c := composer st in
  if mentionIndex c =? -1 then Returns st
  else
    match mentionQuery c with
    | None => Throws (lit "TypeError")
    | Some q =>
        let before := slice (input c) 0 (mentionIndex c) in
        let after := slice_from (input c) (mentionIndex c + len q + 1) in
        let newText := before ++ lit "@[" ++ kb_title kb ++ lit "] " ++ after in
        Returns (set_composer {| input := newText; isTyping := isTyping c;
                                 mentionQuery := None; mentionIndex := -1 |} st)
    end.

(** [handleSend] up to the [await]: [now_id] and [now_ts] are the two
    readings of [Date.now()]. *)
Definition handleSend (now_id now_ts : Z) (st : AppState) : AppState :=
  let c := composer st in
  if negb (truthy (trim (input c))) then st
  else
    let userMsg := {| msg_id := toString now_id; msg_role := user;
                      msg_content := input c; msg_timestamp := now_ts;
                      msg_usedContext := None |} in
    {| view := view st;
       knowledgeBases := knowledgeBases st;
       messages := messages st ++ [userMsg];
       composer := {| input := []; isTyping := true;
                      mentionQuery := mentionQuery c;
                      mentionIndex := mentionIndex c |};
       chatInstance := chatInstance st;
       inflight := inflight st ++
                   [{| req_message := msg_content userMsg;
                       req_knowledgeBases := knowledgeBases st;
                       req_instance := chatInstance st |}] |}.

(** [handleSend] after the [await]: the promise of request [n] settles.
    [setMessages] is the setter of [App]; [setIsTyping] is the setter of the
    instance that sent the request, and acts on the composer only while
    that instance is the one mounted. *)
Definition handleSend_resume (n : nat) (choice : nat) (now_id now_ts : Z)
    (st : AppState) : AppState :=
  match inflight st !! n with
  | None => st
  | Some req =>
      let c := composer st in
      let done := {| input := input c; isTyping := false;
                     mentionQuery := mentionQuery c;
                     mentionIndex := mentionIndex c |} in
      let messages' :=
        match generateResponse (req_message req) (req_knowledgeBases req) choice with
        | Resolved response =>
            messages st ++
            [{| msg_id := toString (now_id + 1); msg_role := assistant;
                msg_content := text response; msg_timestamp := now_ts;
                msg_usedContext := Some (usedContext response) |}]
        | Rejected => messages st
        end in
      {| view := view st;
         knowledgeBases := knowledgeBases st;
         messages := messages';
         composer := if bool_decide (req_instance req = chatInstance st)
                     then done else c;
         chatInstance := chatInstance st;
         inflight := delete n (inflight st) |}
  end.

(** The value of [e.key] for the Enter key. *)
Definition Enter : str := lit "Enter".

Definition handleKeyDown (key : str) (shiftKey : bool) (now_id now_ts : Z)
    (st : AppState) : AppState :=
  if bool_decide (key = Enter) && negb shiftKey then
    match mentionQuery (composer st) with
    | None => handleSend now_id now_ts st
    | Some _ => st
    end
  else st.

Definition filteredKBs (st : AppState) : list KnowledgeBase :=
  match mentionQuery (composer st) with
  | None => []
  | Some q =>
      filter (λ kb, includes (toLowerCase (kb_title kb)) (toLowerCase q))
             (knowledgeBases st)
  end.

(** The [disabled] attribute of the send button. *)
Definition send_disabled (st : AppState) : bool :=
  negb (truthy (trim (input (composer st)))) || isTyping (composer st).

(** ** The page as a transition system

    One event per thing that can happen to the page.  The composer, the
    send button and the popup exist while the chat view is shown, the
    creation form and the delete buttons while the knowledge view is; the
    navigation buttons and the timers of the responses are always there. *)
Inductive Event :=
| Navigate (v : View)
| InputChange (newVal : str)
| KeyDown (key : str) (shiftKey : bool) (now_id now_ts : Z)
| ClickSend (now_id now_ts : Z)
| ClickSuggestion (kb : KnowledgeBase)
| Settle (n : nat) (choice : nat) (now_id now_ts : Z)
| SubmitForm (now : Z) (form : Form)
| ClickDelete (id : str).

(** What the event does when its control is on the page. *)
Definition when_view (v : View) (st st' : AppState) : AppState :=
  if bool_decide (view st = v) then st' else st.

Definition step (ev : Event) (st : AppState) : AppState :=
  match ev with
  | Navigate v => setView v st
  | InputChange newVal => when_view chat st (handleInputChange newVal st)
  | KeyDown key shiftKey now_id now_ts =>
      when_view chat st (handleKeyDown key shiftKey now_id now_ts st)
  | ClickSend now_id now_ts =>
      (* a disabled button receives no click *)
      when_view chat st
        (if send_disabled st then st else handleSend now_id now_ts st)
  | ClickSuggestion kb =>
      (* the popup lists [filteredKBs] and only while a query is set *)
      when_view chat st
        (if bool_decide (kb ∈ filteredKBs st) then
           match handleSelectKB kb st with
           | Returns st' => st'
           | Throws _ => st
           end
         else st)
  | Settle n choice now_id now_ts => handleSend_resume n choice now_id now_ts st
  | SubmitForm now form => when_view knowledge st (handleSubmit now form st).2
  | ClickDelete id => when_view knowledge st (handleDeleteKB id st)
  end.

Definition run (evs : list Event) (st : AppState) : AppState :=
  foldl (λ s ev, step ev s) st evs.

(** States the page can be in after some events. *)
Inductive reachable : AppState → Prop :=
| reachable_init now : reachable (initialState now)
| reachable_step ev st : reachable st → reachable (step ev st).

(** ** Rendering ([ChatInterface], [KnowledgeManager]) *)

(** [s.endsWith(p)] *)
Definition endsWith (s p : str) : bool :=
  let start := len s - len p in
  if start <? 0 then false else bool_decide (drop (Z.to_nat start) s = p).

(** [content.split(/(@\[[^\]]+\])/g)]: the pieces of text between the
    matches of the mention pattern and, because the whole pattern is a
    capturing group, the matches themselves, in order.  [plain] gathers, in
    reverse, the piece under way; [skip] is as in [matchAll_from]. *)
Fixpoint split_mentions_from (s : str) (skip : nat) (plain : str) : list str :=
  match s with
  | [] => [reverse plain]
  | c :: s' =>
      match skip with
      | S k => split_mentions_from s' k plain
      | O =>
          match exec_at s with
          | Some t =>
              reverse plain :: take (length t + 3) s
                :: split_mentions_from s' (length t + 2) []
          | None => split_mentions_from s' 0 (c :: plain)
          end
      end
  end.

Definition split_mentions (content : str) : list str :=
  split_mentions_from content 0 [].

(** What the message bubble shows for one piece: the piece itself, or a
    highlighted [span] around the piece without its first two characters
    and its last. *)
Inductive Fragment :=
| Plain (part : str)
| Highlighted (label : str).

Definition renderPart (part : str) : Fragment :=
  if starts_with (lit "@[") part && endsWith part (lit "]")
  then Highlighted (slice part 2 (-1))
  else Plain part.

Definition renderContent (content : str) : list Fragment :=
  renderPart <$> split_mentions content.

(** [knowledgeBases.find(k => k.id === id)] *)
Definition findKB (id : str) (knowledgeBases : list KnowledgeBase)
  : option KnowledgeBase :=
  snd <$> list_find (λ k, kb_id k = id) knowledgeBases.

(** The source badges under a message: nothing without used context, else
    the title of the entry each id finds now, and nothing for an id that
    finds none. *)
Definition contextBadges (knowledgeBases : list KnowledgeBase) (msg : Message)
  : list str :=
  match msg_usedContext msg with
  | Some ids =>
      if (0 <? length ids)%nat
      then omap (λ id, kb_title <$> findKB id knowledgeBases) ids
      else []
  | None => []
  end.

(** The [disabled] attribute of the submit button of the creation form. *)
Definition submit_disabled (form : Form) : bool :=
  negb (truthy (newTitle form)) || negb (truthy (newContent form)).

(** ** Vocabulary of the specification

    The notions the specification speaks in, stated on texts and lists
    without reference to the handlers. *)

(** [r] is the subsequence of [l], in the order of [l], of exactly the
    elements that satisfy [P]. *)
Inductive selects {A : Type} (P : A → Prop) : list A → list A → Prop :=
| selects_nil : selects P [] []
| selects_keep x l r : P x → selects P l r → selects P (x :: l) (x :: r)
| selects_drop x l r : ¬ P x → selects P l r → selects P (x :: l) r.

(** A title a mention token can carry: one or more characters, none of them
    the closing bracket. *)
Definition well_formed_title (t : str) : Prop :=
  t ≠ [] ∧ (cu "]") ∉ t.

(** The token [@[Title]]. *)
Definition mention_token (t : str) : str :=
  (cu "@") :: (cu "[") :: t ++ [(cu "]")].

(** A well-formed token with title [t] starts the text [s]. *)
Definition token_at (s t : str) : Prop :=
  well_formed_title t ∧ ∃ post, s = mention_token t ++ post.

(** The titles of the tokens of a text, scanned left to right: the next
    token is the leftmost one, and the scan goes on after its closing
    bracket. *)
Inductive Tokens : str → list str → Prop :=
| Tokens_done s :
    (∀ k t, ¬ token_at (drop k s) t) →
    Tokens s []
| Tokens_next pre t post ts :
    well_formed_title t →
    (∀ k t', (k < length pre)%nat →
             ¬ token_at (drop k (pre ++ mention_token t ++ post)) t') →
    Tokens post ts →
    Tokens (pre ++ mention_token t ++ post) (t :: ts).



(** [title], lower-cased, contains the lower-cased [q]. *)
Definition lowered_contains (title q : str) : Prop :=
  ∃ l r, toLowerCase title = l ++ toLowerCase q ++ r.

(** A code unit that is lower-cased by itself, whatever stands around it:
    no surrogate, not the capital sigma, not the dotted capital I. *)
Definition plain_unit (c : code_unit) : Prop :=
  ((c < 0xD800)%N ∨ (0xDFFF < c < 0x10000)%N)
  ∧ c ≠ 0x3A3%N ∧ c ≠ 0x130%N.

Definition plain (s : str) : Prop := Forall plain_unit s.

(** The same code unit, or the same letter of A-Z in its two cases. *)
Definition case_variant (a b : code_unit) : Prop :=
  a = b
  ∨ ((0x41 ≤ a ≤ 0x5A)%N ∧ b = (a + 32)%N)
  ∨ ((0x41 ≤ b ≤ 0x5A)%N ∧ a = (b + 32)%N).

(** The piece of text a displayed fragment stands for: a plain fragment
    for itself, a highlighted label for the token around it. *)
Definition fragment_source (f : Fragment) : str :=
  match f with
  | Plain part => part
  | Highlighted label => mention_token label
  end.

(** Empty or made of white space only. *)
Definition blank (s : str) : Prop :=
  Forall (λ c, is_space c = true) s.

(** The text [newVal] ends in an in-progress mention: an [@] followed by
    [q], where [q] has neither an [@] nor a space. *)
Definition active_query (newVal pre q : str) : Prop :=
  newVal = pre ++ ((cu "@") :: q) ∧ ((cu "@") ∉ q) ∧ ((cu " ") ∉ q).

(** No mention is in progress: no [@] at all, or a space after the last. *)
Definition no_active_query (newVal : str) : Prop :=
  (cu "@") ∉ newVal
  ∨ ∃ pre q, newVal = pre ++ ((cu "@") :: q) ∧ ((cu "@") ∉ q) ∧ ((cu " ") ∈ q).

(** The number of response generations outstanding. *)
Definition outstanding (st : AppState) : nat := length (inflight st).

(** The text [pre] does not end inside a bracket: its last bracket, if it
    has one, is a closing one. *)
Definition brackets_closed (pre : str) : Prop :=
  (cu "[") ∉ pre ∨ ∃ a b, pre = a ++ (cu "]") :: b ∧ (cu "[") ∉ b.

(** Neither the first nor the last character of [t] is white space. *)
Definition trimmed (t : str) : Prop :=
  (∀ c r, t = c :: r → is_space c = false)
  ∧ (∀ r c, t = r ++ [c] → is_space c = false).

(** The message [msg] with the id [id] struck from its used context. *)
Definition forget_context_id (id : str) (msg : Message) : Message :=
  {| msg_id := msg_id msg; msg_role := msg_role msg;
     msg_content := msg_content msg; msg_timestamp := msg_timestamp msg;
     msg_usedContext := filter (λ i, i ≠ id) <$> msg_usedContext msg |}.

(** The events of the knowledge view, and the switches of view. *)
Definition store_event (ev : Event) : Prop :=
  match ev with
  | SubmitForm _ _ | ClickDelete _ | Navigate _ => True
  | _ => False
  end.

(** The mention query and the index kept with it agree: none and [-1], or a
    query and the index of a character. *)
Definition mention_state_ok (c : Composer) : Prop :=
  (mentionQuery c = None ∧ mentionIndex c = -1)
  ∨ (∃ q, mentionQuery c = Some q ∧ 0 ≤ mentionIndex c).

(** The clock readings at which the creation form is submitted, in order. *)
Fixpoint submit_readings (evs : list Event) : list Z :=
  match evs with
  | [] => []
  | SubmitForm now _ :: evs' => now :: submit_readings evs'
  | _ :: evs' => submit_readings evs'
  end.

(** The readings go strictly up, starting above [t]. *)
Fixpoint increasing_from (t : Z) (readings : list Z) : Prop :=
  match readings with
  | [] => True
  | x :: readings' => t < x ∧ increasing_from x readings'
  end.


(** * Properties *)

(** Closed decidable facts are settled by running their decision procedure. *)
Ltac by_evaluation :=
  first [ refine (bool_decide_eq_true_1 _ _)
        | refine (bool_decide_eq_false_1 _ _) ];
  vm_compute; reflexivity.

(** ** Lists *)

Section Selects.
Context {A : Type} (P : A → Prop).

Lemma selects_filter (f : A → Prop) `{!∀ x, Decision (f x)} (l : list A) :
  (∀ x, x ∈ l → (f x ↔ P x)) → selects P l (filter f l).
Proof.
  induction l as [|x l IH]; intros Hf.
  - constructor.
  - assert (Hl : ∀ y, y ∈ l → (f y ↔ P y))
      by (intros y Hy; apply Hf; by right).
    specialize (Hf x (list_elem_of_here _ _)).
    rewrite filter_cons. case_decide.
    + apply selects_keep; [tauto | auto].
    + apply selects_drop; [tauto | auto].
Qed.

Lemma selects_functional (l r1 r2 : list A) :
  selects P l r1 → selects P l r2 → r1 = r2.
Proof.
  intros H1. revert r2.
  induction H1; intros r2 H2; inversion H2; subst;
    try done; try (f_equal; auto); auto.
Qed.

Lemma selects_sublist (l r : list A) : selects P l r → r `sublist_of` l.
Proof. induction 1; by constructor. Qed.

Lemma selects_elem_of (l r : list A) (x : A) :
  selects P l r → (x ∈ r ↔ x ∈ l ∧ P x).
Proof.
  induction 1 as [|y l r Hy _ IH|y l r Hy _ IH];
    rewrite ?elem_of_nil, ?elem_of_cons; [tauto| |].
  - rewrite IH. split; [intros [->|[]]; auto | intros [[->|] ?]; auto].
  - rewrite IH. split; [intros []; auto | intros [[->|] ?]; [done|auto]].
Qed.

End Selects.

(** ** Strings *)

Lemma starts_with_spec (p s : str) :
  starts_with p s = true ↔ ∃ r, s = p ++ r.
Proof.
  revert s. induction p as [|a p IH]; intros s; simpl.
  - split; [intros _; by exists s | done].
  - destruct s as [|b s].
    + split; [done | intros [r Hr]; discriminate].
    + rewrite andb_true_iff, bool_decide_eq_true, IH. split.
      * intros [-> [r ->]]. by exists r.
      * intros [r Hr]. injection Hr as -> ->. eauto.
Qed.

Lemma includes_spec (s sub : str) :
  includes s sub = true ↔ ∃ l r, s = l ++ sub ++ r.
Proof.
  induction s as [|c s IH]; simpl; rewrite orb_true_iff, starts_with_spec.
  - split.
    + intros [[r Hr]|]; [|done]. by exists [], r.
    + intros (l & r & Hlr). left. destruct l; [by exists r | discriminate].
  - rewrite IH. split.
    + intros [[r Hr]|(l & r & ->)]; [by exists [], r | by exists (c :: l), r].
    + intros (l & r & Hlr). destruct l as [|c' l]; simpl in Hlr.
      * left. by exists r.
      * right. injection Hlr as -> ->. by exists l, r.
Qed.

Lemma includes_unit (s : str) (c : code_unit) :
  includes s [c] = true ↔ c ∈ s.
Proof.
  rewrite includes_spec. split.
  - intros (l & r & ->). rewrite elem_of_app. right. by left.
  - intros (l & r & ->)%list_elem_of_split. by exists l, r.
Qed.

Lemma includes_empty (s : str) : includes s [] = true.
Proof. apply includes_spec. by exists [], s. Qed.

(** The test of [filteredKBs]. *)
Lemma includes_lowered (title q : str) :
  includes (toLowerCase title) (toLowerCase q) = true ↔ lowered_contains title q.
Proof. apply includes_spec. Qed.

(** *** Lower-casing of plain text *)

Lemma code_points_no_lead (s : str) :
  Forall (λ c, is_lead c = false) s → code_points s = s.
Proof.
  induction 1 as [|u s Hu Hs IH]; [done|].
  simpl. rewrite Hu. simpl. destruct s; [done | by rewrite IH].
Qed.

Lemma plain_unit_no_lead (c : code_unit) : plain_unit c → is_lead c = false.
Proof.
  intros [Hc _]. unfold is_lead.
  destruct (0xD800 <=? c)%N eqn:E1; [|done].
  destruct (c <=? 0xDBFF)%N eqn:E2; [|done].
  apply N.leb_le in E1, E2. lia.
Qed.

Lemma lower_points_plain (before s : list N) :
  plain s → lower_points before s = simple_lower <$> s.
Proof.
  intros Hs. revert before.
  induction Hs as [|c s (_ & Hsigma & Hdot) _ IH]; intros before; [done|].
  simpl. apply N.eqb_neq in Hsigma, Hdot. rewrite Hsigma, Hdot. simpl.
  by rewrite IH.
Qed.

Lemma lookup_lower_small (rules : list (N * N * N * N)) (c : N) :
  forallb (λ r, (0x10000 <=? r.1.1.1)%N
                || (r.2 + (r.1.1.2 - r.1.1.1) <? 0x10000)%N) rules = true →
  (c < 0x10000)%N → (lookup_lower rules c < 0x10000)%N.
Proof.
  intros Hrules Hc. induction rules as [|[[[lo hi] stride] target] rules IH]; [done|].
  simpl in Hrules. apply andb_true_iff in Hrules as [Hr Hrules].
  simpl. case_match; [|by apply IH].
  repeat match goal with
         | H : _ && _ = true |- _ => apply andb_true_iff in H as [? ?]
         end.
  apply orb_true_iff in Hr as [Hr|Hr].
  - apply N.leb_le in Hr. assert (lo ≤ c)%N by by apply N.leb_le. lia.
  - apply N.ltb_lt in Hr.
    assert (lo ≤ c)%N by by apply N.leb_le.
    assert (c ≤ hi)%N by by apply N.leb_le. lia.
Qed.

Lemma simple_lower_small (c : N) : (c < 0x10000)%N → (simple_lower c < 0x10000)%N.
Proof. apply lookup_lower_small. by vm_compute. Qed.

Lemma concat_units_small (l : list N) :
  Forall (λ c, (c < 0x10000)%N) l → concat (units_of <$> l) = l.
Proof.
  induction 1 as [|c l Hc _ IH]; [done|].
  rewrite fmap_cons. cbn [concat]. rewrite IH. unfold units_of.
  apply N.ltb_lt in Hc. by rewrite Hc.
Qed.

(** Plain text is lower-cased one code unit at a time. *)
Lemma toLowerCase_plain (s : str) :
  plain s → toLowerCase s = simple_lower <$> s.
Proof.
  intros Hs. unfold toLowerCase.
  rewrite code_points_no_lead
    by (eapply Forall_impl; [exact Hs | apply plain_unit_no_lead]).
  rewrite lower_points_plain by done.
  apply concat_units_small, Forall_fmap.
  eapply Forall_impl; [exact Hs|].
  intros c [Hc _]. simpl. apply simple_lower_small. lia.
Qed.

Lemma plain_app (a b : str) : plain (a ++ b) ↔ plain a ∧ plain b.
Proof. apply Forall_app. Qed.


Lemma N_bounded_forallb (P : N → bool) (lo n : nat) (c : N) :
  forallb P (N.of_nat <$> seq lo n) = true →
  (N.of_nat lo ≤ c < N.of_nat (lo + n))%N → P c = true.
Proof.
  intros Hall Hc. rewrite forallb_forall in Hall. apply Hall.
  apply list_elem_of_In, list_elem_of_fmap. exists (N.to_nat c).
  split; [lia|]. apply list_elem_of_In, in_seq. lia.
Qed.

Lemma case_variant_lower (a b : code_unit) :
  case_variant a b → simple_lower a = simple_lower b.
Proof.
  assert (Hup : ∀ c, (0x41 ≤ c ≤ 0x5A)%N →
                     simple_lower c = simple_lower (c + 32)%N).
  { intros c Hc. apply N.eqb_eq.
    apply (N_bounded_forallb
             (λ c, simple_lower c =? simple_lower (c + 32))%N 65 26);
      [by vm_compute | lia]. }
  intros [->|[[Ha ->]|[Hb ->]]]; [done | by apply Hup | symmetry; by apply Hup].
Qed.

Lemma case_variant_plain (a b : code_unit) :
  case_variant a b → plain_unit a → plain_unit b.
Proof.
  unfold plain_unit. intros [->|[[Ha ->]|[Hb ->]]] Hp; [done| |]; lia.
Qed.

(** Plain texts that differ only in the case of letters of A-Z have the
    same lower-casing. *)
Lemma case_variants_lower (q q' : str) :
  plain q → Forall2 case_variant q q' → toLowerCase q = toLowerCase q'.
Proof.
  intros Hplain Hcase.
  assert (Hplain' : plain q').
  { clear -Hplain Hcase. induction Hcase as [|a b q q' Hab _ IH]; [done|].
    apply Forall_cons in Hplain as [Ha Hplain].
    constructor; [by eapply case_variant_plain | by apply IH]. }
  rewrite !toLowerCase_plain by done.
  clear -Hcase. induction Hcase as [|a b q q' Hab _ IH]; [done|].
  rewrite !fmap_cons, IH. f_equal. by apply case_variant_lower.
Qed.

Lemma len_nonneg (s : str) : 0 ≤ len s.
Proof. unfold len. lia. Qed.

Lemma len_app (a b : str) : len (a ++ b) = len a + len b.
Proof. unfold len. rewrite length_app. lia. Qed.

(** [slice(0, i)] with a non-negative [i] is the first [i] characters. *)
Lemma slice_prefix (s : str) (i : Z) :
  0 ≤ i → slice s 0 i = take (Z.to_nat i) s.
Proof.
  intros Hi. unfold slice, rel_index.
  pose proof (len_nonneg s) as Hs. unfold len in *.
  replace (0 <? 0) with false by done.
  destruct (i <? 0) eqn:E; [apply Z.ltb_lt in E; lia|].
  rewrite (Z.min_l 0) by lia.
  change (drop (Z.to_nat 0) s) with s. rewrite Z.sub_0_r.
  destruct (decide (i ≤ Z.of_nat (length s))).
  - by rewrite Z.min_l by lia.
  - rewrite Z.min_r by lia. rewrite !take_ge; [done | lia | lia].
Qed.

(** [slice(i)] from a non-negative index drops [i] characters. *)
Lemma slice_from_drop (s : str) (i : Z) :
  0 ≤ i → slice_from s i = drop (Z.to_nat i) s.
Proof.
  intros Hi. unfold slice_from, slice, rel_index.
  pose proof (len_nonneg s) as Hs. unfold len in *.
  destruct (i <? 0) eqn:E; [apply Z.ltb_lt in E; lia|].
  destruct (Z.of_nat (length s) <? 0) eqn:E'; [apply Z.ltb_lt in E'; lia|].
  rewrite Z.min_id.
  destruct (decide (i ≤ Z.of_nat (length s))).
  - rewrite Z.min_l by lia. apply take_ge. rewrite length_drop. lia.
  - rewrite Z.min_r by lia. rewrite Z.sub_diag. simpl.
    rewrite !drop_ge; [done | lia | lia].
Qed.

Lemma lastIndexOf_scan_absent (c : code_unit) (s : str) (i last : Z) :
  c ∉ s → lastIndexOf_scan c s i last = last.
Proof.
  revert i last. induction s as [|x s IH]; intros i last Hc; simpl; [done|].
  apply not_elem_of_cons in Hc as [Hx Hs].
  rewrite bool_decide_eq_false_2 by done. by apply IH.
Qed.

Lemma lastIndexOf_scan_last (c : code_unit) (pre q : str) (i last : Z) :
  c ∉ q → lastIndexOf_scan c (pre ++ c :: q) i last = i + len pre.
Proof.
  intros Hq. revert i last. induction pre as [|x pre IH]; intros i last; simpl.
  - rewrite bool_decide_eq_true_2 by done.
    rewrite lastIndexOf_scan_absent by done. unfold len. simpl. lia.
  - rewrite IH. unfold len. simpl. lia.
Qed.

Lemma lastIndexOf_absent (s : str) (c : code_unit) :
  c ∉ s → lastIndexOf s c = -1.
Proof. apply lastIndexOf_scan_absent. Qed.

Lemma lastIndexOf_last (pre q : str) (c : code_unit) :
  c ∉ q → lastIndexOf (pre ++ c :: q) c = len pre.
Proof. intros. unfold lastIndexOf. by rewrite lastIndexOf_scan_last. Qed.

Lemma trimStart_blank (s : str) : trimStart s = [] ↔ blank s.
Proof.
  unfold blank. induction s as [|c s IH]; simpl.
  - split; [constructor | done].
  - destruct (is_space c) eqn:E.
    + rewrite IH. split; [by constructor | by inversion 1].
    + split; [done | inversion 1; congruence].
Qed.

(** [!s.trim()] holds exactly of the blank strings. *)
Lemma trim_falsy_blank (s : str) : truthy (trim s) = false ↔ blank s.
Proof.
  assert (Hrev : ∀ t : str, reverse t = [] ↔ t = []).
  { intros t. split; [|by intros ->].
    intros H. apply (f_equal reverse) in H. by rewrite reverse_involutive in H. }
  assert (Hpre : ∀ t : str, trimStart (trimStart t) = trimStart t).
  { induction t as [|c t IH]; simpl; [done|].
    destruct (is_space c) eqn:E; [done|]. simpl. by rewrite E. }
  assert (Hkeep : ∀ t : str, trimStart t ≠ [] → trim t ≠ []).
  { intros t Ht. unfold trim, trimEnd. rewrite Hrev, trimStart_blank.
    unfold blank. rewrite Forall_reverse. fold (blank (trimStart t)).
    rewrite <- trimStart_blank, Hpre. done. }
  split.
  - intros H. apply trimStart_blank.
    destruct (decide (trimStart s = [])) as [|Hne]; [done|].
    apply Hkeep in Hne. destruct (trim s); [done | discriminate].
  - intros H%trimStart_blank. unfold trim. by rewrite H.
Qed.

(** ** The mention scanner *)

Lemma span_title_split (s t r : str) :
  span_title s = (t, r) →
  s = t ++ r ∧ ((cu "]") ∉ t) ∧ (r = [] ∨ ∃ r', r = (cu "]") :: r').
Proof.
  revert t r. induction s as [|c s IH]; intros t r; simpl.
  - intros [= <- <-]. split_and!; [done | apply not_elem_of_nil | by left].
  - case_bool_decide as Hc.
    + intros [= <- <-]. subst c.
      split_and!; [done | apply not_elem_of_nil | right; eauto].
    + destruct (span_title s) as [t' r'] eqn:E. intros [= <- <-].
      destruct (IH _ _ eq_refl) as (-> & Ht & Hr).
      split_and!; [done | | done].
      apply not_elem_of_cons. split; [congruence | done].
Qed.

Lemma span_title_closed (t post : str) :
  (cu "]") ∉ t → span_title (t ++ (cu "]") :: post) = (t, (cu "]") :: post).
Proof.
  induction t as [|c t IH]; intros Ht; simpl.
  - done.
  - apply not_elem_of_cons in Ht as [Hc Ht].
    rewrite bool_decide_eq_false_2 by congruence. by rewrite IH.
Qed.

(** An attempt of the pattern succeeds exactly on a well-formed token, and
    captures its title. *)
Lemma exec_at_token (s t : str) : exec_at s = Some t ↔ token_at s t.
Proof.
  unfold token_at, well_formed_title, mention_token. split.
  - destruct s as [|a [|b s]]; simpl; try done.
    destruct (bool_decide (a = (cu "@"))) eqn:Ea; simpl; [|done].
    destruct (bool_decide (b = (cu "["))) eqn:Eb; simpl; [|done].
    apply bool_decide_eq_true in Ea, Eb. subst a b.
    destruct (span_title s) as [t' r] eqn:E.
    apply span_title_split in E as (-> & Ht & Hr).
    destruct t' as [|c t']; [done|]. destruct r as [|d r]; [done|].
    intros [= <-]. destruct Hr as [|[r' [= -> ->]]]; [done|].
    split_and!; [done | done |]. exists r'.
    simpl. by rewrite <- app_assoc.
  - intros ([Hne Ht] & post & ->). simpl. rewrite <- app_assoc. simpl.
    rewrite span_title_closed by done. by destruct t.
Qed.

Lemma exec_at_none (s : str) : exec_at s = None ↔ ∀ t, ¬ token_at s t.
Proof.
  split.
  - intros H t Ht%exec_at_token. congruence.
  - intros H. destruct (exec_at s) as [t|] eqn:E; [|done].
    apply exec_at_token in E. by destruct (H t).
Qed.

Lemma token_at_functional (s t1 t2 : str) :
  token_at s t1 → token_at s t2 → t1 = t2.
Proof. intros H1%exec_at_token H2%exec_at_token. congruence. Qed.

(** Passing [k] characters is dropping them. *)
Lemma matchAll_from_drop (s : str) (k : nat) :
  matchAll_from s k = matchAll_titles (drop k s).
Proof.
  revert k. induction s as [|c s IH]; intros k.
  - by rewrite drop_nil.
  - destruct k as [|k]; [done|]. simpl. apply IH.
Qed.

(** The scanner, one attempt at a time. *)
Lemma matchAll_titles_match (t post : str) :
  well_formed_title t →
  matchAll_titles (mention_token t ++ post) = t :: matchAll_titles post.
Proof.
  intros Ht. unfold matchAll_titles at 1.
  assert (E : exec_at (mention_token t ++ post) = Some t)
    by (apply exec_at_token; split; [done | by exists post]).
  unfold mention_token in *.
  change (((cu "@") :: (cu "[") :: t ++ [(cu "]")]) ++ post)
    with ((cu "@") :: ((cu "[") :: t ++ [(cu "]")]) ++ post) in *.
  cbn [matchAll_from]. rewrite E. f_equal.
  rewrite matchAll_from_drop. f_equal.
  apply drop_app_length'. simpl. rewrite length_app. simpl. lia.
Qed.

Lemma matchAll_titles_skip (c : code_unit) (s : str) :
  (∀ t, ¬ token_at (c :: s) t) →
  matchAll_titles (c :: s) = matchAll_titles s.
Proof.
  intros H%exec_at_none. unfold matchAll_titles.
  cbn [matchAll_from]. by rewrite H.
Qed.

Lemma Tokens_skip (c : code_unit) (s : str) (ts : list str) :
  (∀ t, ¬ token_at (c :: s) t) → Tokens s ts → Tokens (c :: s) ts.
Proof.
  intros Hc H. destruct H as [s Hs|pre t post ts Ht Hpre Hpost].
  - apply Tokens_done. intros [|k] t; [apply Hc | apply Hs].
  - apply (Tokens_next (c :: pre)); [done | | done].
    intros [|k] t' Hk; [apply Hc | apply Hpre; simpl in Hk; lia].
Qed.

(** The scanner computes the tokens of the text. *)
Lemma matchAll_titles_Tokens (s : str) : Tokens s (matchAll_titles s).
Proof.
  remember (length s) as n eqn:Hn. revert s Hn.
  induction (lt_wf n) as [n _ IH]. intros s Hn.
  destruct (exec_at s) as [t|] eqn:E.
  - apply exec_at_token in E as (Ht & post & ->).
    rewrite matchAll_titles_match by done.
    apply (Tokens_next [] t post); [done | simpl; lia |].
    apply (IH (length post)); [|done].
    subst n. unfold mention_token. simpl. rewrite !length_app. simpl. lia.
  - destruct s as [|c s].
    + apply Tokens_done. intros k t. rewrite drop_nil.
      by apply exec_at_none.
    + pose proof (proj1 (exec_at_none _) E) as Hc.
      rewrite matchAll_titles_skip by done.
      apply Tokens_skip; [done|].
      apply (IH (length s)); [subst n; simpl; lia | done].
Qed.

(** The tokens of a text are determined by the text. *)
Lemma Tokens_matchAll_titles (s : str) (ts : list str) :
  Tokens s ts → ts = matchAll_titles s.
Proof.
  induction 1 as [s Hs|pre t post ts Ht Hpre _ IH].
  - induction s as [|c s IHs]; [done|].
    rewrite matchAll_titles_skip by (apply (Hs 0%nat)).
    apply IHs. intros k t. apply (Hs (S k)).
  - subst ts. induction pre as [|c pre IHpre].
    + rewrite app_nil_l. by rewrite matchAll_titles_match.
    + rewrite <- app_comm_cons. rewrite matchAll_titles_skip.
      * apply IHpre. intros k t' Hk. apply (Hpre (S k)). simpl. lia.
      * intros t'. apply (Hpre 0%nat). simpl. lia.
Qed.

Lemma Tokens_functional (s : str) (ts1 ts2 : list str) :
  Tokens s ts1 → Tokens s ts2 → ts1 = ts2.
Proof. intros ->%Tokens_matchAll_titles ->%Tokens_matchAll_titles. done. Qed.

(** Every title the scan yields is the title of a well-formed token that
    occurs in the text. *)
Lemma Tokens_occurs (s : str) (ts : list str) (t : str) :
  Tokens s ts → t ∈ ts →
  well_formed_title t ∧ ∃ pre post, s = pre ++ mention_token t ++ post.
Proof.
  induction 1 as [s Hs|pre t0 post ts Ht0 Hpre _ IH]; intros Hin.
  - by apply elem_of_nil in Hin.
  - apply elem_of_cons in Hin as [->|Hin].
    + split; [done|]. by exists pre, post.
    + destruct (IH Hin) as (Ht & pre' & post' & ->).
      split; [done|]. exists (pre ++ mention_token t0 ++ pre'), post'.
      by rewrite <- !app_assoc.
Qed.

(** Tokens do not nest: a token that begins inside the title of another is
    part of that title. *)
Example Tokens_nested :
  Tokens (lit "@[a@[b]") [lit "a@[b"]
  ∧ token_at (drop 3 (lit "@[a@[b]")) (lit "b").
Proof.
  split; [exact (matchAll_titles_Tokens (lit "@[a@[b]"))|].
  by apply exec_at_token.
Qed.

(** ** Commit resolution *)

Lemma usedKBs_selects (userMessage : str) (kbs : list KnowledgeBase) (ts : list str) :
  Tokens userMessage ts →
  selects (λ kb, kb_title kb ∈ ts) kbs (usedKBs userMessage kbs).
Proof.
  intros ->%Tokens_matchAll_titles. unfold usedKBs.
  apply selects_filter. intros kb _.
  unfold array_includes, mentionedTitles.
  split; [apply bool_decide_unpack | apply bool_decide_pack].
Qed.

Lemma generateResponse_usedContext (userMessage : str)
    (kbs : list KnowledgeBase) (choice : nat) :
  ∃ r, generateResponse userMessage kbs choice = Resolved r
       ∧ usedContext r = kb_id <$> usedKBs userMessage kbs.
Proof. unfold generateResponse. eauto. Qed.

(** C1. Commit resolution, the mention matching inside response generation,
    returns exactly the store entries whose title is the captured title of
    some well-formed token of the text: the subsequence of the store, in
    store order, selected by exact equality of the title with a token's
    title.  Tokens that name no entry select nothing; the order and the
    number of the mentions do not matter; the ids of the result are
    distinct whenever those of the store are; and every selected entry is
    named by a well-formed token that occurs in the text. *)
Theorem commit_resolution_exact (userMessage : str)
    (kbs : list KnowledgeBase) (ts : list str) :
  Tokens userMessage ts →
  selects (λ kb, kb_title kb ∈ ts) kbs (usedKBs userMessage kbs)
  ∧ (∀ choice, ∃ r, generateResponse userMessage kbs choice = Resolved r
                    ∧ usedContext r = kb_id <$> usedKBs userMessage kbs)
  ∧ (∀ kb, kb ∈ usedKBs userMessage kbs ↔ kb ∈ kbs ∧ kb_title kb ∈ ts)
  ∧ usedKBs userMessage kbs `sublist_of` kbs
  ∧ (∀ userMessage' ts', Tokens userMessage' ts' → (∀ t, t ∈ ts ↔ t ∈ ts') →
       usedKBs userMessage' kbs = usedKBs userMessage kbs)
  ∧ (NoDup (kb_id <$> kbs) → NoDup (kb_id <$> usedKBs userMessage kbs))
  ∧ (∀ kb, kb ∈ usedKBs userMessage kbs →
       well_formed_title (kb_title kb)
       ∧ ∃ pre post, userMessage = pre ++ mention_token (kb_title kb) ++ post).
Proof.
  intros Hts. pose proof (usedKBs_selects _ kbs _ Hts) as Hsel.
  split; [|split; [|split; [|split; [|split; [|split]]]]].
  - done.
  - intros choice. apply generateResponse_usedContext.
  - intros kb. by apply (selects_elem_of (λ kb, kb_title kb ∈ ts)).
  - by apply selects_sublist with (P := λ kb, kb_title kb ∈ ts).
  - intros userMessage' ts' Hts' Hsame.
    pose proof (usedKBs_selects _ kbs _ Hts') as Hsel'.
    apply (selects_functional (λ kb, kb_title kb ∈ ts) kbs); [|done].
    clear -Hsel' Hsame. induction Hsel'; constructor; rewrite ?Hsame; auto.
  - intros Hnd. eapply sublist_NoDup; [done|].
    apply fmap_sublist. by apply selects_sublist with (P := λ kb, kb_title kb ∈ ts).
  - intros kb Hkb.
    apply (selects_elem_of (λ kb, kb_title kb ∈ ts) _ _ kb Hsel) in Hkb as [_ Hin].
    by apply (Tokens_occurs userMessage ts).
Qed.

Lemma commit_resolution_exact_witness :
  let userMessage := lit "Compare @[Q3 Financials], @[Missing] and @[Product Docs] with @[Q3 Financials]" in
  let ts := [lit "Q3 Financials"; lit "Missing"; lit "Product Docs"; lit "Q3 Financials"] in
  Tokens userMessage ts
  ∧ usedKBs userMessage initialKnowledgeBases `sublist_of` initialKnowledgeBases
  ∧ kb_id <$> usedKBs userMessage initialKnowledgeBases = [lit "1"; lit "3"].
Proof.
  intros userMessage ts.
  assert (Hts : Tokens userMessage ts) by exact (matchAll_titles_Tokens userMessage).
  split; [exact Hts|]. split.
  - exact (proj1 (proj2 (proj2 (proj2 (commit_resolution_exact
             userMessage initialKnowledgeBases ts Hts))))).
  - reflexivity.
Defined.

(** ** Live suggestions *)

Lemma reachable_run (evs : list Event) (st : AppState) :
  reachable st → reachable (run evs st).
Proof.
  revert st. induction evs as [|ev evs IH]; intros st Hst; [done|].
  apply IH. by constructor.
Qed.

Lemma handleInputChange_active (newVal pre q : str) (st : AppState) :
  active_query newVal pre q →
  composer (handleInputChange newVal st)
  = {| input := newVal; isTyping := isTyping (composer st);
       mentionQuery := Some q; mentionIndex := len pre |}.
Proof.
  intros (-> & Hat & Hsp). unfold handleInputChange.
  rewrite lastIndexOf_last by done.
  pose proof (len_nonneg pre) as Hpre.
  rewrite slice_from_drop by lia.
  replace (Z.to_nat (len pre + 1)) with (length (pre ++ [(cu "@")])).
  2:{ unfold len. rewrite length_app. simpl. lia. }
  rewrite (cons_middle (cu "@") pre q), app_assoc, drop_app_length.
  change (lit " ") with [(cu " ")].
  destruct (includes q [(cu " ")]) eqn:E; [by apply includes_unit in E|].
  destruct (len pre =? -1) eqn:E'; [apply Z.eqb_eq in E'; lia|].
  done.
Qed.

Lemma handleInputChange_inactive (newVal : str) (st : AppState) :
  no_active_query newVal →
  composer (handleInputChange newVal st)
  = {| input := newVal; isTyping := isTyping (composer st);
       mentionQuery := None; mentionIndex := -1 |}.
Proof.
  intros [Hno|(pre & q & -> & Hat & Hsp)]; unfold handleInputChange.
  - by rewrite lastIndexOf_absent.
  - rewrite lastIndexOf_last by done.
    pose proof (len_nonneg pre) as Hpre.
    rewrite slice_from_drop by lia.
    replace (Z.to_nat (len pre + 1)) with (length (pre ++ [(cu "@")])).
    2:{ unfold len. rewrite length_app. simpl. lia. }
    rewrite (cons_middle (cu "@") pre q), app_assoc, drop_app_length.
    change (lit " ") with [(cu " ")].
    apply includes_unit in Hsp. rewrite Hsp.
    by case_match.
Qed.

Lemma filteredKBs_selects (st : AppState) (q : str) :
  mentionQuery (composer st) = Some q →
  selects (λ kb, lowered_contains (kb_title kb) q)
          (knowledgeBases st) (filteredKBs st).
Proof.
  intros Hq. unfold filteredKBs. rewrite Hq.
  apply selects_filter. intros kb _.
  rewrite <- includes_lowered.
  split; [apply Is_true_true_1 | apply Is_true_true_2].
Qed.





(** ** Knowledge store *)

Lemma setView_store (v : View) (st : AppState) :
  knowledgeBases (setView v st) = knowledgeBases st
  ∧ messages (setView v st) = messages st
  ∧ inflight (setView v st) = inflight st.
Proof. unfold setView. by case_bool_decide. Qed.

Lemma handleCreateKB_knowledgeBases (kb : KnowledgeBase) (st : AppState) :
  knowledgeBases (handleCreateKB kb st) = knowledgeBases st ++ [kb].
Proof. unfold handleCreateKB, setView. by case_bool_decide. Qed.

Lemma handleSubmit_valid (now : Z) (form : Form) (st : AppState) :
  ¬ blank (newTitle form) → ¬ blank (newContent form) →
  handleSubmit now form st
  = (initialForm,
     handleCreateKB {| kb_id := toString now;
                       kb_title := newTitle form;
                       kb_content := newContent form;
                       kb_tags := parseTags (newTags form) |} st).
Proof.
  intros Ht Hc. unfold handleSubmit.
  destruct (truthy (trim (newTitle form))) eqn:E1;
    [|by apply trim_falsy_blank in E1].
  destruct (truthy (trim (newContent form))) eqn:E2;
    [|by apply trim_falsy_blank in E2].
  done.
Qed.

(** C6. When the title or the content is empty or made of white space only,
    the create operation does nothing: the handler returns, and the
    application state, the store in it, and the form are what they were. *)
Theorem create_blank_is_noop (now : Z) (form : Form) (st : AppState) :
  blank (newTitle form) ∨ blank (newContent form) →
  handleSubmit now form st = (form, st)
  ∧ knowledgeBases (step (SubmitForm now form) st) = knowledgeBases st.
Proof.
  intros H.
  assert (E : handleSubmit now form st = (form, st)).
  { unfold handleSubmit.
    destruct H as [H|H]; apply trim_falsy_blank in H; rewrite H; [done|].
    by rewrite orb_true_r. }
  split; [done|]. simpl. rewrite E. unfold when_view. by case_bool_decide.
Qed.

Lemma create_blank_is_noop_witness :
  let form := {| isCreating := true; newTitle := lit "";
                 newContent := lit "body"; newTags := lit "" |} in
  let form' := {| isCreating := true; newTitle := lit "Notes";
                  newContent := lit "   "; newTags := lit "a,b" |} in
  (blank (newTitle form) ∨ blank (newContent form))
  ∧ handleSubmit 1700000000000 form (initialState 0) = (form, initialState 0)
  ∧ handleSubmit 1700000000000 form' (initialState 0) = (form', initialState 0).
Proof.
  intros form form'.
  assert (H : blank (newTitle form) ∨ blank (newContent form))
    by (left; constructor).
  assert (H' : blank (newTitle form') ∨ blank (newContent form'))
    by (right; repeat constructor).
  split_and!.
  - exact H.
  - exact (proj1 (create_blank_is_noop 1700000000000 form (initialState 0) H)).
  - exact (proj1 (create_blank_is_noop 1700000000000 form' (initialState 0) H')).
Defined.

Lemma filter_all {A : Type} (P : A → Prop) `{!∀ x, Decision (P x)} (l : list A) :
  (∀ x, x ∈ l → P x) → filter P l = l.
Proof.
  induction l as [|x l IH]; intros Hall; [done|].
  rewrite filter_cons, decide_True by (apply Hall; by left).
  f_equal. apply IH. intros y Hy. apply Hall. by right.
Qed.

(** C7. [delete(id)] keeps, in their order, exactly the entries whose id is
    not [id], and touches nothing else.  When one entry has that id, the
    result is the store without it; when none has, the state is what it
    was.  The handler always returns. *)
Theorem delete_removes_matching (id : str) (st : AppState) :
  let st' := handleDeleteKB id st in
  selects (λ k, kb_id k ≠ id) (knowledgeBases st) (knowledgeBases st')
  ∧ (messages st' = messages st ∧ composer st' = composer st
     ∧ inflight st' = inflight st ∧ view st' = view st)
  ∧ (∀ l1 e l2, knowledgeBases st = l1 ++ e :: l2 → kb_id e = id →
       (∀ k, k ∈ l1 ++ l2 → kb_id k ≠ id) →
       knowledgeBases st' = l1 ++ l2)
  ∧ ((∀ k, k ∈ knowledgeBases st → kb_id k ≠ id) → st' = st).
Proof.
  intros st'. split; [|split; [|split]].
  - apply selects_filter. tauto.
  - done.
  - intros l1 e l2 Hst He Hrest. unfold st', handleDeleteKB. simpl.
    rewrite Hst, filter_app, filter_cons.
    rewrite decide_False by (intros Hne; by apply Hne).
    rewrite <- filter_app. by apply filter_all.
  - intros Hnone. unfold st', handleDeleteKB.
    rewrite filter_all by done. by destruct st.
Qed.

Lemma delete_removes_matching_witness :
  let st := initialState 0 in
  (∀ k, k ∈ knowledgeBases st → kb_id k ≠ lit "99")
  ∧ handleDeleteKB (lit "99") st = st
  ∧ kb_id <$> knowledgeBases (handleDeleteKB (lit "2") st) = [lit "1"; lit "3"].
Proof.
  intros st.
  assert (H : ∀ k, k ∈ knowledgeBases st → kb_id k ≠ lit "99").
  { apply Forall_forall. repeat constructor; by_evaluation. }
  split_and!.
  - exact H.
  - exact (proj2 (proj2 (proj2 (delete_removes_matching (lit "99") st))) H).
  - reflexivity.
Defined.

(** ** Selecting a suggestion *)

(** C8. With a mention query [q] active and its [@] at index [i], selecting
    the entry [kb] rewrites the input to the text before index [i], then
    [@[], the title, [] ] with its trailing space, then the characters from
    index [i + 1 + length q] on; it closes the query and leaves the
    knowledge store, the messages and the outstanding requests alone. *)
Theorem select_rewrites_input (kb : KnowledgeBase) (st : AppState) (i : Z) (q : str) :
  mentionIndex (composer st) = i → mentionQuery (composer st) = Some q → 0 ≤ i →
  ∃ st', handleSelectKB kb st = Returns st'
    ∧ input (composer st')
      = take (Z.to_nat i) (input (composer st))
        ++ lit "@[" ++ kb_title kb ++ lit "] "
        ++ drop (Z.to_nat (i + 1 + len q)) (input (composer st))
    ∧ mentionQuery (composer st') = None
    ∧ mentionIndex (composer st') = -1
    ∧ knowledgeBases st' = knowledgeBases st
    ∧ messages st' = messages st
    ∧ inflight st' = inflight st.
Proof.
  intros Hi Hq Hpos. unfold handleSelectKB. rewrite Hi, Hq.
  destruct (i =? -1) eqn:E; [apply Z.eqb_eq in E; lia|].
  eexists. split; [reflexivity|]. simpl.
  pose proof (len_nonneg q).
  rewrite slice_prefix by done. rewrite slice_from_drop by lia.
  replace (i + len q + 1) with (i + 1 + len q) by lia. done.
Qed.

Lemma select_rewrites_input_witness :
  let st := handleInputChange (lit "check @prod") (initialState 0) in
  let kb := {| kb_id := lit "1"; kb_title := lit "Product Docs";
               kb_content := lit "The product allows users to chat with documents. It supports markdown and exports.";
               kb_tags := [lit "docs"; lit "manual"] |} in
  mentionIndex (composer st) = 6
  ∧ mentionQuery (composer st) = Some (lit "prod")
  ∧ ∃ st', handleSelectKB kb st = Returns st'
           ∧ input (composer st') = lit "check @[Product Docs] "
           ∧ knowledgeBases st' = knowledgeBases st
           ∧ messages st' = messages st.
Proof.
  intros st kb.
  split; [reflexivity|]. split; [reflexivity|].
  destruct (select_rewrites_input kb st 6 (lit "prod") eq_refl eq_refl ltac:(lia))
    as (st' & Hret & Hin & _ & _ & Hkbs & Hmsg & _).
  exists st'. split; [exact Hret|]. split; [exact Hin|]. split; [exact Hkbs | exact Hmsg].
Defined.

(** ** Response generation *)

(** C9. When commit resolution finds no entry, response generation resolves,
    with an empty list of used context ids and with the reply that puts the
    user text, verbatim, between quotation marks and says that no knowledge
    base was tagged. *)
Theorem no_match_echoes_message (userMessage : str)
    (kbs : list KnowledgeBase) (choice : nat) :
  usedKBs userMessage kbs = [] →
  generateResponse userMessage kbs choice
  = Resolved
      {| text := lit "I received your message: "
                 ++ [dquote] ++ userMessage ++ [dquote]
                 ++ lit ". I didn't see any specific knowledge base tagged, so I'm answering with my general training.";
         usedContext := [] |}.
Proof.
  intros H. unfold generateResponse. rewrite H. unfold quoted.
  simpl. by rewrite <- !app_assoc.
Qed.

Lemma no_match_echoes_message_witness :
  usedKBs (lit "hello") initialKnowledgeBases = []
  ∧ ∃ r, generateResponse (lit "hello") initialKnowledgeBases 3 = Resolved r
         ∧ usedContext r = []
         ∧ includes (text r) ([dquote] ++ lit "hello" ++ [dquote]) = true.
Proof.
  assert (H : usedKBs (lit "hello") initialKnowledgeBases = []) by reflexivity.
  split; [exact H|].
  eexists. split; [exact (no_match_echoes_message _ _ 3 H)|].
  split; reflexivity.
Defined.

(** ** Creating an entry *)

(** C10. The create operation stores the title and the content as they were
    entered: trimming serves the emptiness test alone.  The new entry is
    then selected by commit resolution exactly when a token of the message
    carries that very title, white space included. *)
Theorem create_stores_untrimmed (now : Z) (form : Form) (st : AppState) :
  ¬ blank (newTitle form) → ¬ blank (newContent form) →
  let st' := (handleSubmit now form st).2 in
  let kb := {| kb_id := toString now;
               kb_title := newTitle form;
               kb_content := newContent form;
               kb_tags := parseTags (newTags form) |} in
  knowledgeBases st' = knowledgeBases st ++ [kb]
  ∧ ∀ userMessage ts, Tokens userMessage ts →
      (kb ∈ usedKBs userMessage (knowledgeBases st') ↔ newTitle form ∈ ts).
Proof.
  intros Ht Hc st' kb. unfold st'.
  rewrite handleSubmit_valid by done. cbn [snd].
  rewrite handleCreateKB_knowledgeBases. fold kb.
  split; [done|]. intros userMessage ts Hts.
  rewrite (selects_elem_of _ _ _ kb (usedKBs_selects _ _ _ Hts)).
  rewrite elem_of_app, list_elem_of_singleton. simpl. tauto.
Qed.

Lemma create_stores_untrimmed_witness :
  let form := {| isCreating := true; newTitle := lit " Docs ";
                 newContent := lit "body"; newTags := lit "a, b" |} in
  let st' := (handleSubmit 1700000000000 form (initialState 0)).2 in
  let kb := {| kb_id := lit "1700000000000"; kb_title := lit " Docs ";
               kb_content := lit "body"; kb_tags := [lit "a"; lit "b"] |} in
  ¬ blank (newTitle form) ∧ ¬ blank (newContent form)
  ∧ knowledgeBases st' = initialKnowledgeBases ++ [kb]
  ∧ kb ∈ usedKBs (lit "see @[ Docs ]") (knowledgeBases st')
  ∧ kb ∉ usedKBs (lit "see @[Docs]") (knowledgeBases st').
Proof.
  intros form st' kb.
  assert (Ht : ¬ blank (newTitle form)) by (unfold blank; by_evaluation).
  assert (Hc : ¬ blank (newContent form)) by (unfold blank; by_evaluation).
  destruct (create_stores_untrimmed 1700000000000 form (initialState 0) Ht Hc)
    as [Hst Hsel].
  split; [exact Ht|]. split; [exact Hc|]. split; [exact Hst|]. split.
  - apply (Hsel (lit "see @[ Docs ]") [lit " Docs "]).
    + exact (matchAll_titles_Tokens (lit "see @[ Docs ]")).
    + by_evaluation.
  - intros Hin.
    apply (Hsel (lit "see @[Docs]") [lit "Docs"]) in Hin.
    + revert Hin. by_evaluation.
    + exact (matchAll_titles_Tokens (lit "see @[Docs]")).
Defined.

(** ** Ids of the knowledge store *)

Lemma toString_inj (n m : Z) : toString n = toString m → n = m.
Proof.
  unfold toString, lit. intros H.
  apply (f_equal (fmap ascii_of_N)) in H.
  rewrite <- !list_fmap_compose in H.
  assert (Hid : ∀ l : list ascii, ascii_of_N ∘ cu <$> l = l).
  { intros l. rewrite <- (list_fmap_id l) at 2. apply list_fmap_ext.
    intros i a _. apply ascii_N_embedding. }
  rewrite !Hid in H.
  apply (f_equal string_of_list_ascii) in H.
  rewrite !string_of_list_ascii_of_string in H.
  apply (f_equal NilZero.int_of_string) in H.
  assert (Hnil : ∀ z, Z.to_int z ≠ Decimal.Pos Decimal.Nil
                      ∧ Z.to_int z ≠ Decimal.Neg Decimal.Nil).
  { intros [|p|p]; simpl; split; try discriminate;
      intros [= Hp]; by apply DecimalPos.Unsigned.to_uint_nonnil in Hp. }
  rewrite !NilZero.isi in H by apply Hnil.
  injection H as H. by apply DecimalZ.to_int_inj.
Qed.

(** Creation at a clock reading that renders to no id of the store, and
    deletion, keep the ids distinct. *)
Lemma create_fresh_keeps_ids_distinct (now : Z) (form : Form) (st : AppState) :
  NoDup (kb_id <$> knowledgeBases st) →
  toString now ∉ kb_id <$> knowledgeBases st →
  NoDup (kb_id <$> knowledgeBases (handleSubmit now form st).2).
Proof.
  intros Hnd Hfresh. unfold handleSubmit. case_match; [done|]. cbn [snd].
  rewrite handleCreateKB_knowledgeBases, fmap_app. apply NoDup_app. split_and!; [done | | apply NoDup_singleton].
  intros id Hid ->%list_elem_of_singleton. done.
Qed.

(** Ids that render earlier clock readings cannot collide with a later one. *)
Lemma create_later_keeps_ids_distinct (now : Z) (form : Form) (st : AppState) :
  NoDup (kb_id <$> knowledgeBases st) →
  (∀ kb, kb ∈ knowledgeBases st → ∃ n, kb_id kb = toString n ∧ n < now) →
  NoDup (kb_id <$> knowledgeBases (handleSubmit now form st).2).
Proof.
  intros Hnd Hold. apply create_fresh_keeps_ids_distinct; [done|].
  intros (kb & Hid & Hkb)%list_elem_of_fmap.
  destruct (Hold kb Hkb) as (n & Hn & Hlt).
  rewrite Hn in Hid. apply toString_inj in Hid. lia.
Qed.

Lemma delete_keeps_ids_distinct (id : str) (st : AppState) :
  NoDup (kb_id <$> knowledgeBases st) →
  NoDup (kb_id <$> knowledgeBases (handleDeleteKB id st)).
Proof.
  intros Hnd. eapply sublist_NoDup; [done|].
  apply fmap_sublist, sublist_filter.
Qed.

Lemma initial_ids_distinct : NoDup (kb_id <$> initialKnowledgeBases).
Proof. by_evaluation. Qed.

(** C3. Two entries created at the same reading of the clock get the same
    id: the state reached holds two entries with id [1700000000000], so the
    ids of a reachable store need not be distinct. *)
Theorem create_same_instant_repeats_id :
  let form1 := {| isCreating := true; newTitle := lit "Alpha";
                  newContent := lit "first"; newTags := lit "" |} in
  let form2 := {| isCreating := true; newTitle := lit "Beta";
                  newContent := lit "second"; newTags := lit "" |} in
  let st := run [Navigate knowledge;
                 SubmitForm 1700000000000 form1;
                 SubmitForm 1700000000000 form2] (initialState 0) in
  reachable st
  ∧ kb_id <$> knowledgeBases st
    = [lit "1"; lit "2"; lit "3"; lit "1700000000000"; lit "1700000000000"]
  ∧ ¬ NoDup (kb_id <$> knowledgeBases st).
Proof.
  intros form1 form2 st. split_and!.
  - apply reachable_run, reachable_init.
  - reflexivity.
  - by_evaluation.
Qed.

(** ** Sending *)

(** The send button starts nothing while a response is pending. *)
Lemma click_send_while_pending (now_id now_ts : Z) (st : AppState) :
  isTyping (composer st) = true → step (ClickSend now_id now_ts) st = st.
Proof.
  intros H. simpl. unfold when_view, send_disabled.
  rewrite H, orb_true_r. by case_bool_decide.
Qed.

(** A send that goes through starts one generation. *)
Lemma handleSend_starts_generation (now_id now_ts : Z) (st : AppState) :
  ¬ blank (input (composer st)) →
  outstanding (handleSend now_id now_ts st) = S (outstanding st)
  ∧ isTyping (composer (handleSend now_id now_ts st)) = true.
Proof.
  intros H. unfold handleSend.
  destruct (truthy (trim (input (composer st)))) eqn:E;
    [|by apply trim_falsy_blank in E].
  simpl. unfold outstanding. simpl. rewrite length_app. simpl. split; [lia | done].
Qed.

(** With the popup closed, Enter without Shift sends. *)
Lemma enter_sends_when_popup_closed (now_id now_ts : Z) (st : AppState) :
  mentionQuery (composer st) = None →
  handleKeyDown Enter false now_id now_ts st = handleSend now_id now_ts st.
Proof. intros H. unfold handleKeyDown. by rewrite H. Qed.

(** C4. Enter starts a second response generation while the first is
    pending: after typing and sending twice with the Enter key, two
    generations are outstanding, although the send button was disabled at
    the moment of the second send. *)
Theorem enter_sends_while_pending :
  let st1 := run [InputChange (lit "first"); KeyDown Enter false 1000 1000]
                 (initialState 0) in
  let st1' := step (InputChange (lit "second")) st1 in
  let st2 := step (KeyDown Enter false 1500 1500) st1' in
  reachable st2
  ∧ isTyping (composer st1') = true
  ∧ outstanding st1' = 1%nat
  ∧ send_disabled st1' = true
  ∧ step (ClickSend 1500 1500) st1' = st1'
  ∧ outstanding st2 = 2%nat
  ∧ req_message <$> inflight st2 = [lit "first"; lit "second"].
Proof.
  intros st1 st1' st2. split_and!; try reflexivity.
  do 2 apply reachable_step. apply reachable_run, reachable_init.
Qed.

(** C5. With the suggestion popup open, Enter without Shift does not send:
    the input [hello @prod] is not empty after trimming, and the key press
    leaves the state as it was, with no message appended and no generation
    started. *)
Theorem enter_with_popup_open_does_not_send :
  let st := run [InputChange (lit "hello @prod")] (initialState 0) in
  let st' := step (KeyDown Enter false 1000 1000) st in
  reachable st
  ∧ truthy (trim (input (composer st))) = true
  ∧ isTyping (composer st) = false
  ∧ mentionQuery (composer st) = Some (lit "prod")
  ∧ st' = st
  ∧ length (messages st') = 1%nat
  ∧ outstanding st' = 0%nat.
Proof.
  intros st st'. split_and!; try reflexivity.
  apply reachable_run, reachable_init.
Qed.

(** ** Scenarios *)

Example scenario_tagged_message :
  generateResponse (lit "Summarize @[Product Docs]") initialKnowledgeBases 1
  = Resolved
      {| text := lit "I've analyzed the content from " ++ quoted (lit "Product Docs")
                 ++ lit ". " ++ [newline; newline]
                 ++ lit "Based on that knowledge: I can certainly help with that based on the context provided."
                 ++ [newline; newline]
                 ++ lit "(Context used: The product allows users to chat with documents. I...)";
         usedContext := [lit "1"] |}.
Proof. reflexivity. Qed.

Example scenario_two_sources :
  ∃ r, generateResponse (lit "@[Q3 Financials] vs @[Marketing Copy]")
                        initialKnowledgeBases 0 = Resolved r
       ∧ usedContext r = [lit "2"; lit "3"]
       ∧ includes (text r)
           (quoted (lit "Marketing Copy") ++ lit " and " ++ quoted (lit "Q3 Financials"))
         = true.
Proof. eexists. split; [reflexivity|]. split; reflexivity. Qed.

Example scenario_send_and_settle :
  let st := run [InputChange (lit "hello"); KeyDown Enter false 1000 1000;
                 Settle 0 2 2500 2500] (initialState 0) in
  msg_role <$> messages st = [assistant; user; assistant]
  ∧ msg_id <$> messages st = [lit "1"; lit "1000"; lit "2501"]
  ∧ msg_usedContext <$> messages st = [None; None; Some []]
  ∧ composer st = initialComposer
  ∧ outstanding st = 0%nat.
Proof. repeat split; reflexivity. Qed.

Example scenario_send_button_with_popup_open :
  let st := run [InputChange (lit "hello @prod")] (initialState 0) in
  send_disabled st = false
  ∧ outstanding (step (ClickSend 1000 1000) st) = 1%nat.
Proof. split; reflexivity. Qed.

Example scenario_tags :
  parseTags (lit " tech, internal ,, draft ,") = [lit "tech"; lit "internal"; lit "draft"].
Proof. reflexivity. Qed.

Example scenario_lower_case :
  toLowerCase (lit "Q3 Financials") = lit "q3 financials"
  ∧ toLowerCase [0x3A3]%N = [0x3C3]%N
  ∧ toLowerCase [0x391; 0x3A3]%N = [0x3B1; 0x3C2]%N
  ∧ toLowerCase [0x391; 0x3A3; 0x2E]%N = [0x3B1; 0x3C2; 0x2E]%N
  ∧ toLowerCase [0x391; 0x3A3; 0x391]%N = [0x3B1; 0x3C3; 0x3B1]%N
  ∧ toLowerCase [0x130]%N = [0x69; 0x307]%N
  ∧ toLowerCase [0xD801; 0xDC00]%N = [0xD801; 0xDC28]%N
  ∧ toLowerCase [0xD801]%N = [0xD801]%N.
Proof. repeat split; by vm_compute. Qed.

(** A visit to the knowledge view while a response is pending: the chat
    comes back with an empty composer, the indicator off, and the reply
    still arrives in the conversation. *)
Example scenario_remount_while_pending :
  let st := run [InputChange (lit "hello"); KeyDown Enter false 1000 1000;
                 InputChange (lit "draft")] (initialState 0) in
  let st1 := run [Navigate knowledge; Navigate chat] st in
  let st2 := step (Settle 0 2 2500 2500) st1 in
  composer st = {| input := lit "draft"; isTyping := true;
                   mentionQuery := None; mentionIndex := -1 |}
  ∧ composer st1 = initialComposer
  ∧ outstanding st1 = 1%nat
  ∧ composer st2 = initialComposer
  ∧ msg_role <$> messages st2 = [assistant; user; assistant].
Proof. repeat split; reflexivity. Qed.

(** The controls of a view that is not shown receive no event. *)
Example scenario_controls_of_the_other_view :
  let form := {| isCreating := true; newTitle := lit "Alpha";
                 newContent := lit "first"; newTags := lit "" |} in
  let st := initialState 0 in
  step (SubmitForm 5 form) st = st
  ∧ step (ClickDelete (lit "1")) st = st
  ∧ step (InputChange (lit "x")) (step (Navigate knowledge) st)
    = step (Navigate knowledge) st.
Proof. repeat split; reflexivity. Qed.

(** ** Rendering a message *)

(** Reasoning along the scan: a text is empty, or starts with a token, or
    starts with a character at which no token starts. *)
Lemma scan_ind (P : str → Prop) :
  P [] →
  (∀ t post, well_formed_title t → P post → P (mention_token t ++ post)) →
  (∀ c s, (∀ t, ¬ token_at (c :: s) t) → P s → P (c :: s)) →
  ∀ s, P s.
Proof.
  intros Hnil Htok Hskip s.
  remember (length s) as n eqn:Hn. revert s Hn.
  induction (lt_wf n) as [n _ IH]. intros s Hn.
  destruct (exec_at s) as [t|] eqn:E.
  - apply exec_at_token in E as (Ht & post & ->).
    apply Htok; [done|]. apply (IH (length post)); [|done].
    subst n. unfold mention_token. simpl. rewrite !length_app. simpl. lia.
  - destruct s as [|c s]; [done|].
    apply Hskip; [by apply exec_at_none|].
    apply (IH (length s)); [subst n; simpl; lia | done].
Qed.

Lemma split_mentions_from_drop (s : str) (k : nat) (plain : str) :
  split_mentions_from s k plain = split_mentions_from (drop k s) 0 plain.
Proof.
  revert k. induction s as [|c s IH]; intros k.
  - by rewrite drop_nil.
  - destruct k as [|k]; [done|]. simpl. apply IH.
Qed.

Lemma split_mentions_match (t post plain : str) :
  well_formed_title t →
  split_mentions_from (mention_token t ++ post) 0 plain
  = reverse plain :: mention_token t :: split_mentions post.
Proof.
  intros Ht.
  assert (E : exec_at (mention_token t ++ post) = Some t)
    by (apply exec_at_token; split; [done | by exists post]).
  assert (Hlen : length (mention_token t) = (length t + 3)%nat).
  { unfold mention_token. simpl. rewrite length_app. simpl. lia. }
  assert (Htake : take (length t + 3) (mention_token t ++ post) = mention_token t).
  { rewrite <- Hlen. apply take_app_length. }
  revert E Htake. unfold mention_token.
  change (((cu "@") :: (cu "[") :: t ++ [(cu "]")]) ++ post)
    with ((cu "@") :: ((cu "[") :: t ++ [(cu "]")]) ++ post).
  intros E Htake. cbn [split_mentions_from]. rewrite E, Htake.
  do 2 f_equal. rewrite split_mentions_from_drop. unfold split_mentions.
  f_equal. apply drop_app_length'. simpl. rewrite length_app. simpl. lia.
Qed.

Lemma split_mentions_skip (c : code_unit) (s plain : str) :
  (∀ t, ¬ token_at (c :: s) t) →
  split_mentions_from (c :: s) 0 plain = split_mentions_from s 0 (c :: plain).
Proof.
  intros H%exec_at_none. cbn [split_mentions_from]. by rewrite H.
Qed.

Lemma endsWith_snoc (x : str) (c d : code_unit) :
  endsWith (x ++ [c]) [d] = true ↔ c = d.
Proof.
  unfold endsWith, len. rewrite length_app. simpl length.
  destruct (Z.of_nat (length x + 1) - Z.of_nat 1 <? 0) eqn:E;
    [apply Z.ltb_lt in E; lia|].
  replace (Z.to_nat (Z.of_nat (length x + 1) - Z.of_nat 1)) with (length x) by lia.
  rewrite drop_app_length, bool_decide_eq_true. split; [by intros [= ->] | by intros ->].
Qed.

Lemma endsWith_nonempty (s : str) (d : code_unit) :
  endsWith s [d] = true → ∃ x, s = x ++ [d].
Proof.
  destruct s as [|c s _] using rev_ind; [done|].
  intros ->%endsWith_snoc. eauto.
Qed.

Lemma slice_strip (a b c : code_unit) (x : str) :
  slice (a :: b :: x ++ [c]) 2 (-1) = x.
Proof.
  unfold slice, rel_index, len. simpl length. rewrite length_app. simpl length.
  replace (2 <? 0) with false by done. replace (-1 <? 0) with true by done.
  rewrite Z.min_l by lia. rewrite Z.max_l by lia.
  change (Z.to_nat 2) with 2%nat. simpl drop.
  replace (Z.to_nat (Z.of_nat (S (S (length x + 1))) + -1 - 2)) with (length x) by lia.
  apply take_app_length.
Qed.

Lemma renderPart_mention_token (label : str) :
  renderPart (mention_token label) = Highlighted label.
Proof.
  unfold renderPart, mention_token.
  change (starts_with (lit "@[") ((cu "@") :: (cu "[") :: label ++ [(cu "]")]))
    with true.
  change (endsWith _ _)
    with (endsWith (((cu "@") :: (cu "[") :: label) ++ [(cu "]")]) [(cu "]")]).
  rewrite (proj2 (endsWith_snoc _ _ _) eq_refl).
  simpl. by rewrite slice_strip.
Qed.

Lemma renderPart_highlighted_inv (part label : str) :
  renderPart part = Highlighted label → part = mention_token label.
Proof.
  unfold renderPart, mention_token.
  destruct (starts_with (lit "@[") part) eqn:E1; [|done].
  rewrite andb_true_l.
  destruct (endsWith part (lit "]")) eqn:E2; [|done].
  apply starts_with_spec in E1 as [r ->].
  apply endsWith_nonempty in E2 as [x Hx].
  destruct r as [|c r _] using rev_ind.
  { destruct x as [|? [|? [|? ?]]]; discriminate. }
  change (lit "@[" ++ r ++ [c]) with ((cu "@") :: (cu "[") :: r ++ [c]) in *.
  rewrite !app_comm_cons in Hx. apply app_inj_tail in Hx as [_ ->].
  rewrite slice_strip. by intros [= ->].
Qed.

Lemma renderPart_source (part : str) :
  fragment_source (renderPart part) = part.
Proof.
  destruct (renderPart part) as [p|label] eqn:E.
  - unfold renderPart in E. by case_match; simplify_eq.
  - symmetry. by apply renderPart_highlighted_inv.
Qed.

Lemma split_mentions_pieces (content : str) :
  concat (split_mentions content) = content.
Proof.
  unfold split_mentions.
  enough (H : ∀ plain, concat (split_mentions_from content 0 plain)
                       = reverse plain ++ content) by apply (H []).
  induction content as [|t post Ht IH|c s Hc IH] using scan_ind; intros plain.
  - simpl. by rewrite !app_nil_r.
  - rewrite split_mentions_match by done. simpl.
    unfold split_mentions. rewrite IH. simpl. by rewrite <- !app_assoc.
  - rewrite split_mentions_skip by done. rewrite IH, reverse_cons.
    by rewrite <- app_assoc.
Qed.

(** X1. The pieces a message is split into for display, put back together,
    are the message; and what is displayed stands for the whole message:
    the fragments shown, with [@[] and the closing bracket put back around
    each highlighted label, make up the message again.  The two brackets
    and the [@] of a highlighted piece are all the display leaves out. *)
Theorem split_mentions_concat (content : str) :
  concat (split_mentions content) = content
  ∧ concat (fragment_source <$> renderContent content) = content.
Proof.
  split; [apply split_mentions_pieces|].
  unfold renderContent. rewrite <- list_fmap_compose.
  rewrite <- (split_mentions_pieces content) at 2. f_equal.
  induction (split_mentions content) as [|p ps IH]; [done|].
  rewrite fmap_cons, IH. f_equal. apply renderPart_source.
Qed.

(** X3. A piece is shown highlighted, with label [label], exactly when it is
    [@[] followed by [label] followed by a closing bracket; any other piece
    is shown as it is. *)
Theorem renderPart_highlights (part label : str) :
  renderPart part = Highlighted label ↔ part = mention_token label.
Proof.
  split; [apply renderPart_highlighted_inv|].
  intros ->. apply renderPart_mention_token.
Qed.

(** X2. Every mention token of a message is shown highlighted with its
    title, and the pieces are one more than twice the tokens: before, between
    and after the tokens lies one piece each, possibly empty. *)
Theorem renderContent_tokens (content : str) :
  length (renderContent content)
  = (2 * length (matchAll_titles content) + 1)%nat
  ∧ ∀ t, t ∈ matchAll_titles content → Highlighted t ∈ renderContent content.
Proof.
  unfold renderContent, split_mentions. rewrite length_fmap.
  enough (H : ∀ plain,
    length (split_mentions_from content 0 plain)
    = (2 * length (matchAll_titles content) + 1)%nat
    ∧ ∀ t, t ∈ matchAll_titles content →
           mention_token t ∈ split_mentions_from content 0 plain).
  { destruct (H []) as [Hlen Hin]. split; [done|]. intros t Ht.
    apply list_elem_of_fmap. exists (mention_token t).
    split; [|auto]. symmetry. apply renderPart_mention_token. }
  induction content as [|t post Ht IH|c s Hc IH] using scan_ind; intros plain.
  - split; [done|]. intros t Ht. by apply elem_of_nil in Ht.
  - rewrite split_mentions_match, matchAll_titles_match by done.
    destruct (IH []) as [Hlen Hin]. unfold split_mentions. split.
    + simpl. rewrite Hlen. lia.
    + intros t' [->|Ht']%elem_of_cons.
      * right. left.
      * do 2 right. auto.
  - rewrite split_mentions_skip, matchAll_titles_skip by done. apply IH.
Qed.

(** ** Source badges *)

Lemma findKB_cons (id : str) (k : KnowledgeBase) (kbs : list KnowledgeBase) :
  findKB id (k :: kbs) = if decide (kb_id k = id) then Some k else findKB id kbs.
Proof.
  unfold findKB. simpl. case_decide; [done|].
  by destruct (list_find _ kbs) as [[]|].
Qed.

Lemma findKB_deleted (id id' : str) (kbs : list KnowledgeBase) :
  findKB id' (filter (λ k, kb_id k ≠ id) kbs)
  = if decide (id' = id) then None else findKB id' kbs.
Proof.
  induction kbs as [|k kbs IH]; [by case_decide|].
  rewrite filter_cons, (findKB_cons id' k kbs).
  destruct (decide (kb_id k ≠ id)) as [Hk|Hk].
  - rewrite findKB_cons, IH. repeat case_decide; congruence.
  - apply dec_stable in Hk. rewrite IH.
    repeat case_decide; congruence.
Qed.

(** X4. After an entry is deleted, a message shows the badges it showed
    before, without the badge of the deleted id: a dangling id is passed
    over, and the badges of the other ids stay and keep their order. *)
Theorem badges_after_delete (id : str) (st : AppState) (msg : Message) :
  contextBadges (knowledgeBases (handleDeleteKB id st)) msg
  = contextBadges (knowledgeBases st) (forget_context_id id msg).
Proof.
  unfold contextBadges, forget_context_id. simpl.
  destruct (msg_usedContext msg) as [ids|]; [|done]. simpl.
  assert (H : omap (λ i, kb_title <$> findKB i (filter (λ k, kb_id k ≠ id)
                                                     (knowledgeBases st))) ids
              = omap (λ i, kb_title <$> findKB i (knowledgeBases st))
                     (filter (λ i, i ≠ id) ids)).
  { induction ids as [|i ids IH]; [done|].
    rewrite filter_cons. cbn [omap list_omap]. rewrite findKB_deleted, IH.
    destruct (decide (i = id)) as [->|Hi].
    - by rewrite decide_False by (intros Hne; by apply Hne).
    - by rewrite decide_True by done. }
  destruct ids as [|i ids]; [done|].
  change (0 <? length (i :: ids))%nat with true. cbv iota. rewrite H.
  by destruct (filter (λ i0, i0 ≠ id) (i :: ids)).
Qed.

Lemma findKB_unique (k : KnowledgeBase) (kbs : list KnowledgeBase) :
  NoDup (kb_id <$> kbs) → k ∈ kbs → findKB (kb_id k) kbs = Some k.
Proof.
  induction kbs as [|k' kbs IH]; intros Hnd Hin; [by apply elem_of_nil in Hin|].
  rewrite fmap_cons in Hnd. apply NoDup_cons in Hnd as [Hk' Hnd].
  rewrite findKB_cons. apply elem_of_cons in Hin as [->|Hin].
  - by rewrite decide_True.
  - rewrite decide_False; [by apply IH|].
    intros E. apply Hk'. rewrite E. by apply list_elem_of_fmap_2.
Qed.

(** X5. While the ids of the store are distinct, the badges of a response,
    rendered against the store it was generated from, are the titles of the
    entries commit resolution selected, in store order. *)
Theorem badges_of_fresh_response (userMessage : str) (kbs : list KnowledgeBase)
    (choice : nat) (r : Response) (aiMsg : Message) :
  NoDup (kb_id <$> kbs) →
  generateResponse userMessage kbs choice = Resolved r →
  msg_usedContext aiMsg = Some (usedContext r) →
  contextBadges kbs aiMsg = kb_title <$> usedKBs userMessage kbs.
Proof.
  intros Hnd [= <-] Hctx. unfold contextBadges. rewrite Hctx. simpl.
  assert (Hsub : ∀ k, k ∈ usedKBs userMessage kbs → k ∈ kbs).
  { intros k Hk. unfold usedKBs in Hk. by apply list_elem_of_filter in Hk as [_ ?]. }
  revert Hsub. generalize (usedKBs userMessage kbs). intros used Hsub.
  assert (H : omap (λ id, kb_title <$> findKB id kbs) (kb_id <$> used)
              = kb_title <$> used).
  { induction used as [|k used IH]; [done|]. simpl.
    rewrite findKB_unique by (done || apply Hsub; by left). simpl.
    f_equal. apply IH. intros k' Hk'. apply Hsub. by right. }
  by destruct used.
Qed.

Lemma badges_of_fresh_response_witness :
  let aiMsg := {| msg_id := lit "2501"; msg_role := assistant;
                  msg_content := lit "..."; msg_timestamp := 2500;
                  msg_usedContext := Some [lit "2"; lit "3"] |} in
  NoDup (kb_id <$> initialKnowledgeBases)
  ∧ contextBadges initialKnowledgeBases aiMsg
    = [lit "Marketing Copy"; lit "Q3 Financials"].
Proof.
  intros aiMsg.
  assert (Hnd : NoDup (kb_id <$> initialKnowledgeBases)) by by_evaluation.
  split; [exact Hnd|].
  exact (badges_of_fresh_response
           (lit "@[Q3 Financials] vs @[Marketing Copy]") initialKnowledgeBases 0
           _ aiMsg Hnd eq_refl eq_refl).
Defined.

(** ** The creation form *)

(** X6. Whenever the submit button of the creation form is disabled, the
    submit handler would do nothing either: the handler's test, on the
    trimmed fields, is at least as strict as the button's, on the raw ones. *)
Theorem submit_disabled_implies_noop (now : Z) (form : Form) (st : AppState) :
  submit_disabled form = true → handleSubmit now form st = (form, st).
Proof.
  unfold submit_disabled, handleSubmit. intros H.
  apply orb_true_iff in H as [H|H]; apply negb_true_iff in H.
  - destruct (newTitle form); [done | discriminate].
  - destruct (newContent form); [|discriminate].
    by rewrite orb_true_r.
Qed.

Lemma submit_disabled_implies_noop_witness :
  let form := {| isCreating := true; newTitle := lit "Notes";
                 newContent := lit ""; newTags := lit "x" |} in
  submit_disabled form = true
  ∧ handleSubmit 5 form (initialState 0) = (form, initialState 0).
Proof.
  intros form. split; [reflexivity|].
  exact (submit_disabled_implies_noop 5 form (initialState 0) eq_refl).
Defined.

(** ** Tags *)

Lemma trimStart_decompose (s : str) :
  ∃ sp, s = sp ++ trimStart s ∧ blank sp.
Proof.
  induction s as [|c s (sp & Hs & Hsp)]; [by exists []; split; [|constructor]|].
  simpl. destruct (is_space c) eqn:E.
  - exists (c :: sp). split; [by rewrite Hs at 1 | by constructor].
  - exists []. split; [done | constructor].
Qed.

Lemma trimStart_head (s r : str) (c : code_unit) :
  trimStart s = c :: r → is_space c = false.
Proof.
  induction s as [|x s IH]; [done|]. simpl.
  destruct (is_space x) eqn:E; [done|]. by intros [= <- _].
Qed.

Lemma trimEnd_decompose (s : str) :
  ∃ sp, s = trimEnd s ++ sp ∧ blank sp.
Proof.
  destruct (trimStart_decompose (reverse s)) as (sp & Hs & Hsp).
  exists (reverse sp). split.
  - unfold trimEnd. rewrite <- reverse_app, <- Hs. by rewrite reverse_involutive.
  - unfold blank. by rewrite Forall_reverse.
Qed.

Lemma trimEnd_last (s r : str) (c : code_unit) :
  trimEnd s = r ++ [c] → is_space c = false.
Proof.
  unfold trimEnd. intros H. apply (f_equal reverse) in H.
  rewrite reverse_involutive, reverse_app in H. simpl in H.
  by apply trimStart_head in H.
Qed.

(** [trim] takes white space off both ends, and nothing else. *)
Lemma trim_decompose (s : str) :
  ∃ l r, s = l ++ trim s ++ r ∧ blank l ∧ blank r.
Proof.
  destruct (trimStart_decompose s) as (l & Hs & Hl).
  destruct (trimEnd_decompose (trimStart s)) as (r & Hr & Hbr).
  exists l, r. unfold trim. by rewrite <- Hr.
Qed.

Lemma trim_trimmed (s : str) : trimmed (trim s).
Proof.
  split.
  - intros c r H. unfold trim in H.
    destruct (trimEnd_decompose (trimStart s)) as (sp & Hs & _).
    rewrite H in Hs. by apply trimStart_head in Hs.
  - intros r c H. by apply trimEnd_last in H.
Qed.

Lemma split_head_prefix (c : code_unit) (s h : str) (tl : list str) :
  split c s = h :: tl → ∃ r, s = h ++ r.
Proof.
  revert h tl. induction s as [|x s IH]; intros h tl; simpl.
  - intros [= <- _]. by exists [].
  - case_bool_decide.
    + intros [= <- _]. by exists (x :: s).
    + destruct (split c s) as [|h' tl'] eqn:E.
      * intros [= <- _]. by exists s.
      * intros [= <- _]. destruct (IH _ _ eq_refl) as [r ->]. by exists r.
Qed.

Lemma split_parts (c : code_unit) (s t : str) :
  t ∈ split c s → (c ∉ t) ∧ ∃ l r, s = l ++ t ++ r.
Proof.
  revert t. induction s as [|x s IH]; intros t; simpl.
  - intros ->%list_elem_of_singleton.
    split; [apply not_elem_of_nil | by exists [], []].
  - case_bool_decide as Hx.
    + intros [->|Ht]%elem_of_cons.
      * split; [apply not_elem_of_nil | by exists [], (x :: s)].
      * destruct (IH _ Ht) as (Hc & l & r & ->).
        split; [done|]. by exists (x :: l), r.
    + destruct (split c s) as [|h tl] eqn:E.
      * intros ->%list_elem_of_singleton. split.
        -- apply not_elem_of_cons. split; [congruence | apply not_elem_of_nil].
        -- by exists [], s.
      * intros [->|Ht]%elem_of_cons.
        -- destruct (IH h (list_elem_of_here _ _)) as [Hc _].
           destruct (split_head_prefix _ _ _ _ E) as [r ->].
           split; [apply not_elem_of_cons; split; [congruence | done]|].
           by exists [], r.
        -- destruct (IH t) as (Hc & l & r & ->); [by right|].
           split; [done|]. by exists (x :: l), r.
Qed.

(** X7. Every tag stored for a new entry is a piece of the text typed in the
    tags field: not empty, without a comma, and with no white space at
    either end. *)
Theorem parseTags_clean (newTags tag : str) :
  tag ∈ parseTags newTags →
  tag ≠ [] ∧ ((cu ",") ∉ tag) ∧ trimmed tag
  ∧ ∃ l r, newTags = l ++ tag ++ r.
Proof.
  unfold parseTags. intros [Htruthy Hin]%list_elem_of_filter.
  apply list_elem_of_fmap in Hin as (raw & -> & Hraw).
  apply split_parts in Hraw as (Hcomma & l & r & ->).
  destruct (trim_decompose raw) as (l' & r' & Hraw & _ & _).
  split_and!.
  - intros E. by rewrite E in Htruthy.
  - intros Hin. apply Hcomma. rewrite Hraw, !elem_of_app. auto.
  - apply trim_trimmed.
  - exists (l ++ l'), (r' ++ r). rewrite Hraw at 1. by rewrite <- !app_assoc.
Qed.

Lemma parseTags_clean_witness :
  lit "internal" ∈ parseTags (lit " tech, internal ,, draft ,")
  ∧ lit "internal" ≠ []
  ∧ trimmed (lit "internal").
Proof.
  assert (H : lit "internal" ∈ parseTags (lit " tech, internal ,, draft ,"))
    by by_evaluation.
  destruct (parseTags_clean _ _ H) as (Hne & _ & Htr & _).
  split; [exact H|]. split; [exact Hne | exact Htr].
Defined.

(** ** More on the knowledge store *)

(** X16. After [delete(id)] no entry of the store has the id [id], however
    many had it before; deleting again changes nothing, and two deletions
    give the same state in either order. *)
Theorem delete_clears_id (id id' : str) (st : AppState) :
  (id ∉ kb_id <$> knowledgeBases (handleDeleteKB id st))
  ∧ handleDeleteKB id (handleDeleteKB id st) = handleDeleteKB id st
  ∧ handleDeleteKB id (handleDeleteKB id' st)
    = handleDeleteKB id' (handleDeleteKB id st).
Proof.
  unfold handleDeleteKB. simpl. split_and!.
  - intros (k & Hid & Hk)%list_elem_of_fmap.
    apply list_elem_of_filter in Hk as [Hne _]. by apply Hne.
  - f_equal. apply filter_all. intros k Hk.
    by apply list_elem_of_filter in Hk as [Hne _].
  - f_equal. rewrite !list_filter_filter. apply list_filter_iff. tauto.
Qed.

(** X17. Creating an entry at a clock reading that renders to no id of the
    store, and then deleting the new id, gives back the store as it was. *)
Theorem create_then_delete (now : Z) (form : Form) (st : AppState) :
  ¬ blank (newTitle form) → ¬ blank (newContent form) →
  toString now ∉ kb_id <$> knowledgeBases st →
  knowledgeBases (handleDeleteKB (toString now) (handleSubmit now form st).2)
  = knowledgeBases st.
Proof.
  intros Ht Hc Hfresh. rewrite handleSubmit_valid by done.
  cbn [snd handleDeleteKB knowledgeBases].
  rewrite handleCreateKB_knowledgeBases.
  rewrite filter_app, filter_cons, filter_nil. simpl.
  rewrite decide_False by (intros Hne; by apply Hne).
  rewrite app_nil_r. apply filter_all.
  intros k Hk E. apply Hfresh. rewrite <- E. by apply list_elem_of_fmap_2.
Qed.

Lemma create_then_delete_witness :
  let form := {| isCreating := true; newTitle := lit "Alpha";
                 newContent := lit "first"; newTags := lit "" |} in
  (toString 1700000000000 ∉ kb_id <$> knowledgeBases (initialState 0))
  ∧ knowledgeBases (handleDeleteKB (lit "1700000000000")
                      (handleSubmit 1700000000000 form (initialState 0)).2)
    = initialKnowledgeBases.
Proof.
  intros form.
  assert (Hfresh : toString 1700000000000 ∉ kb_id <$> knowledgeBases (initialState 0))
    by by_evaluation.
  split; [exact Hfresh|].
  apply (create_then_delete 1700000000000 form (initialState 0));
    [unfold blank; by_evaluation | unfold blank; by_evaluation | exact Hfresh].
Defined.

(** X8. An entry whose title contains a closing bracket can be created, but
    no message ever attaches it: commit resolution selects it for no text. *)
Theorem bracket_title_never_selected (now : Z) (form : Form) (st : AppState)
    (userMessage : str) :
  ¬ blank (newTitle form) → ¬ blank (newContent form) →
  (cu "]") ∈ newTitle form →
  let st' := (handleSubmit now form st).2 in
  (∃ kb, kb ∈ knowledgeBases st' ∧ kb_title kb = newTitle form)
  ∧ ∀ kb, kb_title kb = newTitle form →
          kb ∉ usedKBs userMessage (knowledgeBases st').
Proof.
  intros Ht Hc Hbr st'. unfold st'. rewrite handleSubmit_valid by done.
  cbn [snd]. rewrite handleCreateKB_knowledgeBases. split.
  - eexists. split; [apply elem_of_app; right; apply list_elem_of_here | done].
  - intros kb Hkb Hin.
    pose proof (matchAll_titles_Tokens userMessage) as Hts.
    apply (selects_elem_of _ _ _ kb (usedKBs_selects _ _ _ Hts)) in Hin as [_ Hin].
    apply (Tokens_occurs _ _ _ Hts) in Hin as [[_ Hno] _].
    apply Hno. by rewrite Hkb.
Qed.

Lemma bracket_title_never_selected_witness :
  let form := {| isCreating := true; newTitle := lit "Notes [v2]";
                 newContent := lit "body"; newTags := lit "" |} in
  let st' := (handleSubmit 9 form (initialState 0)).2 in
  (cu "]") ∈ newTitle form
  ∧ kb_title <$> knowledgeBases st'
    = [lit "Product Docs"; lit "Marketing Copy"; lit "Q3 Financials"; lit "Notes [v2]"]
  ∧ ∀ kb, kb_title kb = lit "Notes [v2]" →
          kb ∉ usedKBs (lit "see @[Notes [v2]] ") (knowledgeBases st').
Proof.
  intros form st'.
  assert (Hbr : (cu "]") ∈ newTitle form) by by_evaluation.
  split; [exact Hbr|]. split; [reflexivity|].
  apply (bracket_title_never_selected 9 form (initialState 0)
           (lit "see @[Notes [v2]] "));
    [unfold blank; by_evaluation | unfold blank; by_evaluation | exact Hbr].
Defined.

(** ** More on suggestions *)

Lemma last_occurrence (c : code_unit) (s : str) :
  c ∈ s → ∃ pre q, s = pre ++ c :: q ∧ c ∉ q.
Proof.
  induction s as [|x s IH]; intros Hc; [by apply elem_of_nil in Hc|].
  destruct (decide (c ∈ s)) as [Hs|Hs].
  - destruct (IH Hs) as (pre & q & -> & Hq). by exists (x :: pre), q.
  - apply elem_of_cons in Hc as [->|]; [|done]. by exists [], s.
Qed.

(** X19. Whatever text is typed, a mention query is set only when the text
    ends in an active query: the query is the text after the last [@], it
    has no space, and the index kept is that of this [@]. *)
Theorem mention_detection_sound (newVal q : str) (st : AppState) :
  mentionQuery (composer (handleInputChange newVal st)) = Some q →
  ∃ pre, active_query newVal pre q
         ∧ mentionIndex (composer (handleInputChange newVal st)) = len pre.
Proof.
  intros Hq.
  destruct (decide ((cu "@") ∈ newVal)) as [Hat|Hat].
  - destruct (last_occurrence _ _ Hat) as (pre & q' & -> & Hq').
    destruct (decide ((cu " ") ∈ q')) as [Hsp|Hsp].
    + rewrite handleInputChange_inactive in Hq; [done|].
      right. by exists pre, q'.
    + assert (Hact : active_query (pre ++ (cu "@") :: q') pre q') by done.
      rewrite (handleInputChange_active _ _ _ st Hact) in Hq |- *.
      injection Hq as <-. by exists pre.
  - rewrite handleInputChange_inactive in Hq; [done | by left].
Qed.

Lemma mention_detection_sound_witness :
  let st := handleInputChange (lit "a@b and @pro") (initialState 0) in
  mentionQuery (composer st) = Some (lit "pro")
  ∧ ∃ pre, active_query (lit "a@b and @pro") pre (lit "pro")
           ∧ mentionIndex (composer st) = len pre.
Proof.
  intros st. split; [reflexivity|].
  exact (mention_detection_sound (lit "a@b and @pro") (lit "pro")
           (initialState 0) eq_refl).
Defined.

Lemma lowered_contains_prefix (title q x : str) :
  plain (q ++ x) → lowered_contains title (q ++ x) → lowered_contains title q.
Proof.
  intros Hqx (l & r & H).
  pose proof Hqx as [Hq _]%plain_app.
  rewrite (toLowerCase_plain (q ++ x)), fmap_app in H by done.
  rewrite <- (toLowerCase_plain q) in H by done.
  exists l, ((simple_lower <$> x) ++ r). by rewrite H, <- !app_assoc.
Qed.

Lemma selects_narrow {A : Type} (P Q : A → Prop) (l r1 r2 : list A) :
  (∀ x, P x → Q x) → selects P l r1 → selects Q l r2 → r1 `sublist_of` r2.
Proof.
  intros HPQ H1. revert r2.
  induction H1 as [|x l r1 Hx _ IH|x l r1 Hx _ IH]; intros r2 H2;
    inversion H2; subst.
  - constructor.
  - constructor. auto.
  - exfalso. auto.
  - constructor. auto.
  - auto.
Qed.

(** X10. While the mention query is plain text (no surrogate, no capital
    sigma, no dotted capital I), typing on at its end never brings a
    suggestion back: the suggestions for the longer query are a subsequence
    of those for the shorter one. *)
Theorem suggestions_narrow (newVal newVal' pre pre' q x : str) (st : AppState) :
  active_query newVal pre q → active_query newVal' pre' (q ++ x) →
  plain (q ++ x) →
  filteredKBs (handleInputChange newVal' st)
    `sublist_of` filteredKBs (handleInputChange newVal st).
Proof.
  intros Hq Hqx Hplain.
  assert (Hsel : ∀ v p y, active_query v p y →
    selects (λ kb, lowered_contains (kb_title kb) y) (knowledgeBases st)
            (filteredKBs (handleInputChange v st))).
  { intros v p y Hact.
    assert (Hkbs : knowledgeBases (handleInputChange v st) = knowledgeBases st)
      by (unfold handleInputChange; by repeat case_match).
    rewrite <- Hkbs. apply filteredKBs_selects.
    by rewrite (handleInputChange_active _ _ _ st Hact). }
  eapply selects_narrow; [|by eapply Hsel..].
  intros kb. by apply lowered_contains_prefix.
Qed.

Lemma suggestions_narrow_witness :
  let st := initialState 0 in
  active_query (lit "see @o") (lit "see ") (lit "o")
  ∧ active_query (lit "see @oc") (lit "see ") (lit "o" ++ lit "c")
  ∧ plain (lit "o" ++ lit "c")
  ∧ kb_title <$> filteredKBs (handleInputChange (lit "see @o") st)
    = [lit "Product Docs"; lit "Marketing Copy"]
  ∧ filteredKBs (handleInputChange (lit "see @oc") st)
      `sublist_of` filteredKBs (handleInputChange (lit "see @o") st).
Proof.
  intros st.
  assert (H1 : active_query (lit "see @o") (lit "see ") (lit "o"))
    by (split_and!; [reflexivity | by_evaluation | by_evaluation]).
  assert (H2 : active_query (lit "see @oc") (lit "see ") (lit "o" ++ lit "c"))
    by (split_and!; [reflexivity | by_evaluation | by_evaluation]).
  assert (H3 : plain (lit "o" ++ lit "c"))
    by (repeat constructor; done).
  split; [exact H1|]. split; [exact H2|]. split; [exact H3|].
  split; [reflexivity|].
  exact (suggestions_narrow _ _ _ _ _ _ st H1 H2 H3).
Defined.

(** Outside plain text the suggestions can grow.  With an entry titled
    [ΑΣΑ] in the store, the query [ΑΣ] finds nothing, its sigma being
    lower-cased as a final one, and typing [Α] after it brings the entry
    in. *)
Lemma suggestions_grow_final_sigma :
  let title : str := [0x391; 0x3A3; 0x391]%N in
  let form := {| isCreating := true; newTitle := title;
                 newContent := lit "alpha"; newTags := lit "" |} in
  let st := run [Navigate knowledge; SubmitForm 4 form; Navigate chat]
                (initialState 0) in
  active_query (cu "@" :: [0x391; 0x3A3]%N) [] [0x391; 0x3A3]%N
  ∧ active_query (cu "@" :: title) [] ([0x391; 0x3A3]%N ++ [0x391%N])
  ∧ filteredKBs (handleInputChange (cu "@" :: [0x391; 0x3A3]%N) st) = []
  ∧ kb_title <$> filteredKBs (handleInputChange (cu "@" :: title) st)
    = [title].
Proof.
  intros title form st.
  split_and!; [| |by vm_compute..];
    (split_and!; [reflexivity | by_evaluation | by_evaluation]).
Qed.

(** ** The conversation *)

Lemma handleSend_messages (now_id now_ts : Z) (st : AppState) :
  messages st `prefix_of` messages (handleSend now_id now_ts st).
Proof. unfold handleSend. case_match; [done|]. by apply prefix_app_r. Qed.

Lemma step_messages (ev : Event) (st : AppState) :
  messages st `prefix_of` messages (step ev st).
Proof.
  destruct ev; cbn [step]; unfold when_view;
    try (case_bool_decide; [|done]).
  - by rewrite (proj1 (proj2 (setView_store v st))).
  - unfold handleInputChange. by repeat case_match.
  - unfold handleKeyDown. repeat case_match; try done.
    apply handleSend_messages.
  - case_match; [done | apply handleSend_messages].
  - case_bool_decide; [|done].
    unfold handleSelectKB. repeat case_match; simplify_eq; done.
  - unfold handleSend_resume.
    destruct (inflight st !! n) as [req|]; [|done]. cbn [messages].
    destruct (generateResponse _ _ _); [by apply prefix_app_r | done].
  - unfold handleSubmit. case_match; [done|]. cbn [snd].
    unfold handleCreateKB. by rewrite (proj1 (proj2 (setView_store _ _))).
  - done.
Qed.

(** X11. The conversation only grows: whatever happens, the messages there
    were stay, in their order and unchanged, as the first messages of the
    conversation. *)
Theorem messages_append_only (evs : list Event) (st : AppState) :
  messages st `prefix_of` messages (run evs st).
Proof.
  revert st. induction evs as [|ev evs IH]; intros st; [done|].
  simpl. etrans; [apply (step_messages ev) | apply IH].
Qed.









Lemma lastIndexOf_scan_lower (c : code_unit) (s : str) (i last : Z) :
  0 ≤ i → -1 ≤ last → -1 ≤ lastIndexOf_scan c s i last.
Proof.
  revert i last. induction s as [|x s IH]; intros i last Hi Hlast; [done|].
  simpl. apply IH; [lia | case_bool_decide; lia].
Qed.

Lemma mention_state_ok_ext (c c' : Composer) :
  mentionQuery c' = mentionQuery c → mentionIndex c' = mentionIndex c →
  mention_state_ok c → mention_state_ok c'.
Proof. unfold mention_state_ok. by intros -> ->. Qed.

Lemma handleSend_mention_state (now_id now_ts : Z) (st : AppState) :
  mention_state_ok (composer st) →
  mention_state_ok (composer (handleSend now_id now_ts st)).
Proof.
  intros Hok. unfold handleSend. case_match; [done|].
  by eapply mention_state_ok_ext.
Qed.

Lemma setView_mention_state (v : View) (st : AppState) :
  mention_state_ok (composer st) → mention_state_ok (composer (setView v st)).
Proof. intros Hok. unfold setView. case_bool_decide; [done | by left]. Qed.

Lemma step_mention_state (ev : Event) (st : AppState) :
  mention_state_ok (composer st) → mention_state_ok (composer (step ev st)).
Proof.
  intros Hok.
  destruct ev; simpl; unfold when_view; try case_bool_decide; try done.
  - by apply setView_mention_state.
  - unfold handleInputChange.
    assert (Hlow : -1 ≤ lastIndexOf newVal (cu "@"))
      by (apply lastIndexOf_scan_lower; lia).
    destruct (lastIndexOf newVal (cu "@") =? -1) eqn:E; simpl; [by left|].
    apply Z.eqb_neq in E.
    case_match; simpl; [|by left]. right. eexists. split; [done|]. simpl. lia.
  - unfold handleKeyDown. repeat case_match; try done.
    by apply handleSend_mention_state.
  - case_match; [done | by apply handleSend_mention_state].
  - unfold handleSelectKB. repeat case_match; simplify_eq; try done. by left.
  - unfold handleSend_resume.
    repeat case_match; try done; by eapply mention_state_ok_ext.
  - unfold handleSubmit. case_match; [done|]. cbn [snd].
    by apply setView_mention_state.
Qed.

Lemma reachable_mention_state (st : AppState) :
  reachable st → mention_state_ok (composer st).
Proof.
  induction 1 as [now|ev st _ IH]; [by left | by apply step_mention_state].
Qed.

(** X13. In every reachable state [handleSelectKB] returns: the query it
    reads the length of is set whenever the index is not [-1]. *)
Theorem select_never_throws (kb : KnowledgeBase) (st : AppState) :
  reachable st → ∃ st', handleSelectKB kb st = Returns st'.
Proof.
  intros [[Hq Hi]|(q & Hq & Hi)]%reachable_mention_state; unfold handleSelectKB.
  - rewrite Hi. simpl. eauto.
  - rewrite Hq. case_match; eauto.
Qed.

Lemma select_never_throws_witness :
  let st := run [InputChange (lit "x @q"); ClickSend 7 7] (initialState 0) in
  let kb := {| kb_id := lit "2"; kb_title := lit "Marketing Copy";
               kb_content := lit "c"; kb_tags := [] |} in
  reachable st
  ∧ input (composer st) = []
  ∧ ∃ st', handleSelectKB kb st = Returns st'.
Proof.
  intros st kb.
  assert (Hr : reachable st) by (apply reachable_run, reachable_init).
  split; [exact Hr|]. split; [reflexivity|].
  exact (select_never_throws kb st Hr).
Defined.

(** ** Sending and settling *)

Lemma step_store_event (ev : Event) (st : AppState) :
  store_event ev →
  inflight (step ev st) = inflight st
  ∧ messages (step ev st) = messages st
  ∧ ((chatInstance (step ev st) = chatInstance st
      ∧ composer (step ev st) = composer st)
     ∨ (chatInstance (step ev st) = S (chatInstance st)
        ∧ composer (step ev st) = initialComposer)).
Proof.
  assert (Hset : ∀ v s,
    inflight (setView v s) = inflight s
    ∧ messages (setView v s) = messages s
    ∧ ((chatInstance (setView v s) = chatInstance s
        ∧ composer (setView v s) = composer s)
       ∨ (chatInstance (setView v s) = S (chatInstance s)
          ∧ composer (setView v s) = initialComposer))).
  { intros v s. unfold setView. case_bool_decide; simpl; auto. }
  destruct ev; try done; intros _; cbn [step]; unfold when_view.
  - apply Hset.
  - case_bool_decide; [|by auto]. unfold handleSubmit.
    case_match; [by auto|]. cbn [snd]. unfold handleCreateKB.
    match goal with |- context [setView _ ?s] =>
      destruct (Hset knowledge s) as (-> & -> & H') end.
    by auto.
  - case_bool_decide; by auto.
Qed.

Lemma run_store_events (evs : list Event) (st : AppState) :
  Forall store_event evs →
  inflight (run evs st) = inflight st
  ∧ messages (run evs st) = messages st
  ∧ ((chatInstance (run evs st) = chatInstance st
      ∧ composer (run evs st) = composer st)
     ∨ ((chatInstance st < chatInstance (run evs st))%nat
        ∧ isTyping (composer (run evs st)) = false)).
Proof.
  intros Hevs. revert st.
  induction Hevs as [|ev evs Hev _ IH]; intros st; [by auto|].
  simpl. destruct (IH (step ev st)) as (-> & -> & Hc).
  destruct (step_store_event ev st Hev) as (-> & -> & Hs).
  split; [done|]. split; [done|].
  destruct Hs as [[Hi Hs]|[Hi Hs]], Hc as [[Hi' Hc]|[Hi' Hc]].
  - left. by rewrite Hi', Hi, Hc, Hs.
  - right. split; [lia | done].
  - right. split; [lia | by rewrite Hc, Hs].
  - right. split; [lia | done].
Qed.

(** X14. A response is generated from the message and the store as they were
    when the message was sent: entries created or deleted before the
    response settles, and switches of view, change neither its text nor its
    used context, and the exchange is appended as the user message followed
    by the reply. *)
Theorem response_uses_snapshot (now_id now_ts now_id' now_ts' : Z)
    (choice : nat) (evs : list Event) (st : AppState) :
  ¬ blank (input (composer st)) → Forall store_event evs →
  let st' := handleSend_resume (outstanding st) choice now_id' now_ts'
               (run evs (handleSend now_id now_ts st)) in
  ∃ r, generateResponse (input (composer st)) (knowledgeBases st) choice
       = Resolved r
    ∧ messages st'
      = messages st
        ++ [ {| msg_id := toString now_id; msg_role := user;
                msg_content := input (composer st); msg_timestamp := now_ts;
                msg_usedContext := None |};
             {| msg_id := toString (now_id' + 1); msg_role := assistant;
                msg_content := text r; msg_timestamp := now_ts';
                msg_usedContext := Some (usedContext r) |} ]
    ∧ inflight st' = inflight st
    ∧ isTyping (composer st') = false.
Proof.
  intros Hne Hevs st'. eexists. split; [reflexivity|].
  destruct (run_store_events evs (handleSend now_id now_ts st) Hevs)
    as (Hin & Hmsg & Hc).
  assert (Hsend : inflight (handleSend now_id now_ts st)
                  = inflight st ++ [{| req_message := input (composer st);
                                       req_knowledgeBases := knowledgeBases st;
                                       req_instance := chatInstance st |}]
                  ∧ messages (handleSend now_id now_ts st)
                    = messages st
                      ++ [{| msg_id := toString now_id; msg_role := user;
                             msg_content := input (composer st);
                             msg_timestamp := now_ts;
                             msg_usedContext := None |}]
                  ∧ chatInstance (handleSend now_id now_ts st) = chatInstance st).
  { unfold handleSend.
    destruct (truthy (trim (input (composer st)))) eqn:E;
      [done | by apply trim_falsy_blank in E]. }
  destruct Hsend as (Hsin & Hsmsg & Hsi).
  unfold st', handleSend_resume, outstanding.
  rewrite Hin, Hsin, list_lookup_middle by done.
  cbn [messages inflight composer req_message req_knowledgeBases req_instance].
  rewrite Hmsg, Hsmsg.
  split; [unfold generateResponse; by rewrite <- app_assoc|].
  split; [by rewrite delete_middle, app_nil_r|].
  case_bool_decide; [done|].
  destruct Hc as [[Hi _]|[_ Hc]]; [congruence | done].
Qed.

Lemma response_uses_snapshot_witness :
  let st := handleInputChange (lit "sum up @[Q3 Financials]") (initialState 0) in
  let evs := [Navigate knowledge; ClickDelete (lit "3"); Navigate chat] in
  let st' := handleSend_resume 0 1 2500 2500 (run evs (handleSend 1000 1000 st)) in
  ¬ blank (input (composer st)) ∧ Forall store_event evs
  ∧ kb_id <$> knowledgeBases st' = [lit "1"; lit "2"]
  ∧ ∃ r, msg_usedContext <$> messages st' = [None; None; Some (usedContext r)]
         ∧ usedContext r = [lit "3"].
Proof.
  intros st evs st'.
  assert (Hne : ¬ blank (input (composer st))) by (unfold blank; by_evaluation).
  assert (Hevs : Forall store_event evs) by (repeat constructor).
  destruct (response_uses_snapshot 1000 1000 2500 2500 1 evs st Hne Hevs)
    as (r & Hr & Hmsg & _).
  split; [exact Hne|]. split; [exact Hevs|]. split; [reflexivity|].
  exists r. split.
  - change (msg_usedContext <$> messages st' = [None; None; Some (usedContext r)]).
    unfold st'. change (outstanding st) with 0%nat in Hmsg.
    rewrite Hmsg. reflexivity.
  - injection Hr as <-. reflexivity.
Defined.

(** X18. A blank input is never sent: with an input that is empty or white
    space only, neither a click on the send button nor any key press changes
    the state. *)
Theorem blank_input_not_sent (key : str) (shiftKey : bool) (now_id now_ts : Z)
    (st : AppState) :
  blank (input (composer st)) →
  step (ClickSend now_id now_ts) st = st
  ∧ step (KeyDown key shiftKey now_id now_ts) st = st.
Proof.
  intros H%trim_falsy_blank.
  assert (Hsend : handleSend now_id now_ts st = st)
    by (unfold handleSend; by rewrite H).
  split; cbn [step]; unfold when_view; (case_bool_decide; [|done]).
  - by case_match.
  - unfold handleKeyDown. by repeat case_match.
Qed.

Lemma blank_input_not_sent_witness :
  let st := handleInputChange (lit "   ") (initialState 0) in
  blank (input (composer st))
  ∧ step (KeyDown Enter false 1 1) st = st.
Proof.
  intros st.
  assert (H : blank (input (composer st))) by (repeat constructor).
  split; [exact H|].
  exact (proj2 (blank_input_not_sent Enter false 1 1 st H)).
Defined.

Lemma handleSelectKB_returns (kb : KnowledgeBase) (st : AppState) (q : str) :
  mentionQuery (composer st) = Some q → 0 ≤ mentionIndex (composer st) →
  handleSelectKB kb st
  = Returns (set_composer
      {| input := take (Z.to_nat (mentionIndex (composer st))) (input (composer st))
                  ++ lit "@[" ++ kb_title kb ++ lit "] "
                  ++ drop (Z.to_nat (mentionIndex (composer st) + 1 + len q))
                          (input (composer st));
         isTyping := isTyping (composer st);
         mentionQuery := None; mentionIndex := -1 |} st).
Proof.
  intros Hq Hi. unfold handleSelectKB. rewrite Hq.
  destruct (mentionIndex (composer st) =? -1) eqn:E;
    [apply Z.eqb_eq in E; lia|].
  pose proof (len_nonneg q).
  rewrite slice_prefix by done. rewrite slice_from_drop by lia.
  by replace (mentionIndex (composer st) + len q + 1)
    with (mentionIndex (composer st) + 1 + len q) by lia.
Qed.

Lemma not_blank_with (c : code_unit) (s : str) :
  is_space c = false → c ∈ s → ¬ blank s.
Proof.
  intros Hc Hin Hb. unfold blank in Hb.
  rewrite Forall_forall in Hb. apply Hb in Hin. congruence.
Qed.

(** X20. Selecting a suggestion closes the popup, so that Enter sends again:
    after the selection, Enter without Shift sends the rewritten input as a
    user message and starts one response generation.  The key handler is the
    chat view's: with the chat view shown, the key press runs it. *)
Theorem select_then_enter_sends (kb : KnowledgeBase) (st : AppState) (q : str)
    (now_id now_ts : Z) :
  mentionQuery (composer st) = Some q → 0 ≤ mentionIndex (composer st) →
  ∃ st1, handleSelectKB kb st = Returns st1
    ∧ filteredKBs st1 = []
    ∧ messages (handleKeyDown Enter false now_id now_ts st1)
      = messages st
        ++ [{| msg_id := toString now_id; msg_role := user;
               msg_content := input (composer st1); msg_timestamp := now_ts;
               msg_usedContext := None |}]
    ∧ outstanding (handleKeyDown Enter false now_id now_ts st1)
      = S (outstanding st)
    ∧ (view st = chat →
       step (KeyDown Enter false now_id now_ts) st1
       = handleKeyDown Enter false now_id now_ts st1).
Proof.
  intros Hq Hi.
  eexists. split; [by apply handleSelectKB_returns|].
  split; [done|].
  match goal with |- context [handleKeyDown _ _ _ _ ?s] => set (st1 := s) end.
  assert (Hnb : ¬ blank (input (composer st1))).
  { apply (not_blank_with (cu "@")); [done|].
    simpl. rewrite elem_of_app. right. left. }
  assert (Hkey : handleKeyDown Enter false now_id now_ts st1
                 = handleSend now_id now_ts st1) by done.
  assert (Hstep : view st = chat →
                  step (KeyDown Enter false now_id now_ts) st1
                  = handleKeyDown Enter false now_id now_ts st1).
  { intros Hv. cbn [step]. unfold when_view.
    by rewrite (bool_decide_eq_true_2 (view st1 = chat) Hv). }
  rewrite Hkey in *. unfold handleSend, outstanding in *.
  destruct (truthy (trim (input (composer st1)))) eqn:E;
    [|by apply trim_falsy_blank in E].
  cbn [negb messages inflight]. rewrite length_app.
  split; [done|]. split; [simpl; lia|]. exact Hstep.
Qed.

Lemma select_then_enter_sends_witness :
  let st := handleInputChange (lit "check @prod") (initialState 0) in
  let kb := {| kb_id := lit "1"; kb_title := lit "Product Docs";
               kb_content := lit "c"; kb_tags := [] |} in
  mentionQuery (composer st) = Some (lit "prod")
  ∧ step (KeyDown Enter false 1 1) st = st
  ∧ ∃ st1, handleSelectKB kb st = Returns st1
           ∧ msg_content <$> messages (step (KeyDown Enter false 1 1) st1)
             = (msg_content <$> messages st) ++ [lit "check @[Product Docs] "].
Proof.
  intros st kb. split; [reflexivity|]. split; [reflexivity|].
  destruct (select_then_enter_sends kb st (lit "prod") 1 1 eq_refl ltac:(done))
    as (st1 & Hret & _ & Hmsg & _ & Hstep).
  exists st1. split; [exact Hret|].
  rewrite (Hstep eq_refl), Hmsg, fmap_app. f_equal.
  injection Hret as <-. reflexivity.
Defined.

(** ** The reply to a tagged message *)

Lemma join_includes (sep p : str) (parts : list str) :
  p ∈ parts → ∃ l r, join sep parts = l ++ p ++ r.
Proof.
  induction parts as [|x parts IH]; intros Hin; [by apply elem_of_nil in Hin|].
  destruct parts as [|y parts].
  - apply list_elem_of_singleton in Hin as ->. exists [], []. simpl.
    by rewrite app_nil_r.
  - change (join sep (x :: y :: parts)) with (x ++ sep ++ join sep (y :: parts)).
    apply elem_of_cons in Hin as [->|Hin].
    + by exists [], (sep ++ join sep (y :: parts)).
    + destruct (IH Hin) as (l & r & ->). exists (x ++ sep ++ l), r.
      by rewrite <- !app_assoc.
Qed.

Lemma substring_take (s : str) (n : Z) :
  0 ≤ n → substring s 0 n = take (Z.to_nat n) s.
Proof.
  intros Hn. unfold substring. pose proof (len_nonneg s) as Hs.
  replace (Z.min (Z.max 0 0) (len s)) with 0 by lia.
  replace (Z.max n 0) with n by lia.
  replace (Z.min 0 (Z.min n (len s))) with 0 by lia.
  replace (Z.max 0 (Z.min n (len s))) with (Z.min n (len s)) by lia.
  change (drop (Z.to_nat 0) s) with s. rewrite Z.sub_0_r. unfold len in *.
  destruct (decide (n ≤ Z.of_nat (length s))).
  - by rewrite Z.min_l by lia.
  - rewrite Z.min_r by lia. rewrite !take_ge; [done | lia | lia].
Qed.

(** X15. When commit resolution selects an entry, the reply is not the
    fallback: it resolves with the entry's id among the used context, opens
    with the analysis sentence, names the entry's title between quotation
    marks, and quotes the first 50 characters of the content of the first
    selected entry. *)
Theorem tagged_reply (userMessage : str) (kbs : list KnowledgeBase)
    (choice : nat) (kb : KnowledgeBase) :
  kb ∈ usedKBs userMessage kbs →
  ∃ r first,
    generateResponse userMessage kbs choice = Resolved r
    ∧ head (usedKBs userMessage kbs) = Some first
    ∧ kb_id kb ∈ usedContext r
    ∧ starts_with (lit "I've analyzed the content from ") (text r) = true
    ∧ starts_with (lit "I received your message: ") (text r) = false
    ∧ includes (text r) (quoted (kb_title kb)) = true
    ∧ includes (text r)
        (lit "(Context used: " ++ take 50 (kb_content first) ++ lit "...)") = true.
Proof.
  intros Hin. unfold generateResponse.
  destruct (usedKBs userMessage kbs) as [|first rest] eqn:E;
    [by apply elem_of_nil in Hin|].
  eexists _, first. split; [reflexivity|]. split; [done|].
  cbn [text usedContext].
  split; [by apply list_elem_of_fmap_2|].
  split; [apply starts_with_spec; eauto|].
  split; [done|].
  rewrite substring_take by done. change (Z.to_nat 50) with 50%nat. split.
  - assert (Hq : quoted (kb_title kb) ∈ quoted ∘ kb_title <$> first :: rest)
      by (apply (list_elem_of_fmap_2 (quoted ∘ kb_title)), Hin).
    destruct (join_includes (lit " and ") _ _ Hq) as (l & r & ->).
    apply includes_spec.
    exists (lit "I've analyzed the content from " ++ l). eexists.
    rewrite <- !app_assoc. reflexivity.
  - apply includes_spec. eexists _, []. rewrite app_nil_r.
    rewrite !app_assoc. reflexivity.
Qed.

Lemma tagged_reply_witness :
  let kb := {| kb_id := lit "1"; kb_title := lit "Product Docs";
               kb_content := lit "The product allows users to chat with documents. It supports markdown and exports.";
               kb_tags := [lit "docs"; lit "manual"] |} in
  kb ∈ usedKBs (lit "Summarize @[Product Docs]") initialKnowledgeBases
  ∧ ∃ r, generateResponse (lit "Summarize @[Product Docs]") initialKnowledgeBases 4
         = Resolved r
         ∧ lit "1" ∈ usedContext r
         ∧ starts_with (lit "I received your message: ") (text r) = false.
Proof.
  intros kb.
  assert (H : kb ∈ usedKBs (lit "Summarize @[Product Docs]") initialKnowledgeBases)
    by by_evaluation.
  split; [exact H|].
  destruct (tagged_reply _ _ 4 kb H) as (r & first & Hr & _ & Hid & _ & Hfb & _).
  exists r. split; [exact Hr|]. split; [exact Hid | exact Hfb].
Defined.

(** ** From a suggestion to the used context *)

Lemma brackets_closed_tail (c : code_unit) (s : str) :
  brackets_closed (c :: s) → brackets_closed s.
Proof.
  intros [Hno|(a & b & Hs & Hb)].
  - left. by apply not_elem_of_cons in Hno as [_ ?].
  - destruct a as [|x a]; simpl in Hs.
    + injection Hs as -> ->. by left.
    + injection Hs as -> ->. right. by exists a, b.
Qed.

Lemma brackets_closed_suffix (x y : str) :
  brackets_closed (x ++ y) → brackets_closed y.
Proof.
  induction x as [|c x IH]; [done|].
  intros H%brackets_closed_tail. by apply IH.
Qed.

Lemma span_title_app (x y : str) :
  (cu "]") ∈ x →
  span_title (x ++ y) = ((span_title x).1, (span_title x).2 ++ y)
  ∧ (span_title x).2 ≠ [].
Proof.
  induction x as [|c x IH]; intros Hin; [by apply elem_of_nil in Hin|].
  simpl. case_bool_decide as Hc; [done|].
  apply elem_of_cons in Hin as [Hin|Hin]; [congruence|].
  destruct (IH Hin) as [-> Hne]. by destruct (span_title x).
Qed.

Lemma exec_at_app (a b : code_unit) (x y : str) :
  (cu "]") ∈ x → exec_at (a :: b :: x ++ y) = exec_at (a :: b :: x).
Proof.
  intros Hin. unfold exec_at. case_match; [|done].
  destruct (span_title_app x y Hin) as [-> Hne].
  destruct (span_title x) as [t r]. simpl in *.
  destruct t; [done|]. by destruct r.
Qed.

(** After a text that does not end inside a bracket, the scan of what
    follows starts afresh. *)
Lemma matchAll_titles_app (pre rest : str) :
  brackets_closed pre → (∀ r, rest ≠ (cu "[") :: r) →
  matchAll_titles (pre ++ rest) = matchAll_titles pre ++ matchAll_titles rest.
Proof.
  intros Hclosed Hrest. revert Hclosed.
  induction pre as [|t post Ht IH|c s Hc IH] using scan_ind; intros Hclosed.
  - done.
  - rewrite <- app_assoc, !matchAll_titles_match by done.
    rewrite IH; [done|]. by apply brackets_closed_suffix in Hclosed.
  - rewrite <- app_comm_cons.
    rewrite !matchAll_titles_skip; [apply IH; by eapply brackets_closed_tail | done |].
    apply exec_at_none. apply exec_at_none in Hc.
    destruct s as [|b s].
    + simpl. repeat case_match; try done. simplify_eq.
      repeat match goal with
             | H : _ && _ = true |- _ => apply andb_true_iff in H as [? ?]
             | H : bool_decide _ = true |- _ => apply bool_decide_eq_true in H
             end.
      subst. by edestruct Hrest.
    + destruct (decide ((cu "]") ∈ s)) as [Hin|Hnin].
      * rewrite <- app_comm_cons. by rewrite exec_at_app.
      * rewrite <- app_comm_cons. unfold exec_at. case_match; [|done].
        exfalso.
        match goal with
        | H : _ && _ = true |- _ => apply andb_true_iff in H as [Ha Hb]
        end.
        apply bool_decide_eq_true in Ha, Hb. subst c b.
        destruct Hclosed as [Hno|(a & b & Hs & Hb)].
        -- apply Hno. right. left.
        -- destruct a as [|? [|? a]]; simpl in Hs; simplify_eq.
           apply Hnin. rewrite elem_of_app. right. left.
Qed.

(** X9. From the popup to the used context: when the text before the [@] of
    the query does not end inside a bracket and the selected entry, an entry
    of the store, has a well-formed title, selecting it rewrites the input
    to that text followed by the entry's token and a space; the mentions of
    the new input are those of the text before followed by the entry's
    title, and commit resolution on it selects the entry. *)
Theorem select_then_resolves (kb : KnowledgeBase) (st : AppState)
    (newVal pre q : str) :
  active_query newVal pre q → brackets_closed pre →
  well_formed_title (kb_title kb) → kb ∈ knowledgeBases st →
  ∃ st1, handleSelectKB kb (handleInputChange newVal st) = Returns st1
    ∧ input (composer st1) = pre ++ mention_token (kb_title kb) ++ lit " "
    ∧ mentionedTitles (input (composer st1))
      = mentionedTitles pre ++ [kb_title kb]
    ∧ kb ∈ usedKBs (input (composer st1)) (knowledgeBases st1).
Proof.
  intros Hact Hclosed Hwf Hkb.
  pose proof (handleInputChange_active _ _ _ st Hact) as Hc.
  assert (Hkbs : knowledgeBases (handleInputChange newVal st) = knowledgeBases st)
    by (unfold handleInputChange; by repeat case_match).
  pose proof (len_nonneg pre) as Hpre.
  assert (Hinput : take (Z.to_nat (len pre)) newVal
                   ++ lit "@[" ++ kb_title kb ++ lit "] "
                   ++ drop (Z.to_nat (len pre + 1 + len q)) newVal
                   = pre ++ mention_token (kb_title kb) ++ lit " ").
  { destruct Hact as (-> & _ & _). unfold len.
    rewrite Nat2Z.id, take_app_length.
    replace (Z.to_nat (Z.of_nat (length pre) + 1 + Z.of_nat (length q)))
      with (length (pre ++ (cu "@") :: q)) by (rewrite length_app; simpl; lia).
    rewrite drop_all. unfold mention_token. simpl.
    by rewrite <- !app_assoc. }
  assert (Htitles : mentionedTitles (pre ++ mention_token (kb_title kb) ++ lit " ")
                    = mentionedTitles pre ++ [kb_title kb]).
  { unfold mentionedTitles.
    rewrite matchAll_titles_app by done.
    by rewrite matchAll_titles_match. }
  exists (set_composer
            {| input := pre ++ mention_token (kb_title kb) ++ lit " ";
               isTyping := isTyping (composer st);
               mentionQuery := None; mentionIndex := -1 |}
            (handleInputChange newVal st)).
  split.
  { assert (Hq : mentionQuery (composer (handleInputChange newVal st)) = Some q)
      by by rewrite Hc.
    assert (Hi : 0 ≤ mentionIndex (composer (handleInputChange newVal st)))
      by (rewrite Hc; simpl; lia).
    rewrite (handleSelectKB_returns kb _ q Hq Hi), Hc.
    cbn [input isTyping mentionIndex]. by rewrite Hinput. }
  cbn [composer set_composer input knowledgeBases]. rewrite Hkbs.
  split; [done|]. split; [done|].
  unfold usedKBs. apply list_elem_of_filter. split; [|done].
  unfold array_includes. apply bool_decide_pack.
  rewrite Htitles, elem_of_app. right. by left.
Qed.

Lemma select_then_resolves_witness :
  let kb := {| kb_id := lit "2"; kb_title := lit "Marketing Copy";
               kb_content := lit "Our brand voice is friendly, professional, and concise. We use blue and white as primary colors.";
               kb_tags := [lit "brand"; lit "marketing"] |} in
  let newVal := lit "compare @[Q3 Financials] with @mark" in
  active_query newVal (lit "compare @[Q3 Financials] with ") (lit "mark")
  ∧ brackets_closed (lit "compare @[Q3 Financials] with ")
  ∧ ∃ st1, handleSelectKB kb (handleInputChange newVal (initialState 0))
           = Returns st1
           ∧ input (composer st1)
             = lit "compare @[Q3 Financials] with @[Marketing Copy] "
           ∧ mentionedTitles (input (composer st1))
             = [lit "Q3 Financials"; lit "Marketing Copy"].
Proof.
  intros kb newVal.
  assert (Hact : active_query newVal (lit "compare @[Q3 Financials] with ")
                              (lit "mark"))
    by (split_and!; [reflexivity | by_evaluation | by_evaluation]).
  assert (Hclosed : brackets_closed (lit "compare @[Q3 Financials] with ")).
  { right. exists (lit "compare @[Q3 Financials"), (lit " with ").
    split; [reflexivity | by_evaluation]. }
  assert (Hwf : well_formed_title (kb_title kb))
    by (split; [done | by_evaluation]).
  assert (Hkb : kb ∈ knowledgeBases (initialState 0)) by by_evaluation.
  destruct (select_then_resolves kb (initialState 0) newVal _ _
              Hact Hclosed Hwf Hkb) as (st1 & Hret & Hin & Hts & _).
  split; [exact Hact|]. split; [exact Hclosed|].
  exists st1. split; [exact Hret|]. split; [exact Hin|].
  rewrite Hts. reflexivity.
Defined.

(** ** Ids under a clock that goes forward *)

Lemma run_ids_distinct (evs : list Event) (t : Z) (st : AppState) :
  NoDup (kb_id <$> knowledgeBases st) →
  (∀ kb, kb ∈ knowledgeBases st → ∃ n, kb_id kb = toString n ∧ n ≤ t) →
  increasing_from t (submit_readings evs) →
  NoDup (kb_id <$> knowledgeBases (run evs st)).
Proof.
  revert t st. induction evs as [|ev evs IH]; intros t st Hnd Hold Hinc; [done|].
  assert (Hsame : knowledgeBases (step ev st) = knowledgeBases st →
                  submit_readings (ev :: evs) = submit_readings evs →
                  NoDup (kb_id <$> knowledgeBases (run (ev :: evs) st))).
  { intros Hk Hr. simpl run. apply (IH t); rewrite ?Hk; [done | done |].
    by rewrite <- Hr. }
  destruct ev; cbn [step] in *; unfold when_view in *.
  - apply Hsame; [|done]. apply setView_store.
  - apply Hsame; [|done]. case_bool_decide; [|done].
    unfold handleInputChange. by repeat case_match.
  - apply Hsame; [|done]. case_bool_decide; [|done].
    unfold handleKeyDown, handleSend. by repeat case_match.
  - apply Hsame; [|done]. case_bool_decide; [|done].
    unfold handleSend. by repeat case_match.
  - apply Hsame; [|done]. case_bool_decide; [|done].
    unfold handleSelectKB. repeat case_match; simplify_eq; done.
  - apply Hsame; [|done]. unfold handleSend_resume. by repeat case_match.
  - destruct Hinc as [Hlt Hinc]. simpl run. cbn [step]. unfold when_view.
    apply (IH now); [| |done].
    + case_bool_decide; [|done].
      apply create_later_keeps_ids_distinct; [done|].
      intros kb Hkb. destruct (Hold kb Hkb) as (n & Hn & Hle).
      exists n. split; [done | lia].
    + assert (Hold' : ∀ kb, kb ∈ knowledgeBases st →
                            ∃ n, kb_id kb = toString n ∧ n ≤ now).
      { intros kb Hkb. destruct (Hold kb Hkb) as (n & Hn & Hle).
        exists n. split; [done | lia]. }
      case_bool_decide; [|done].
      unfold handleSubmit. case_match; [done|]. cbn [snd].
      rewrite handleCreateKB_knowledgeBases.
      intros kb [Hkb|Hkb]%elem_of_app; [by apply Hold'|].
      apply list_elem_of_singleton in Hkb as ->.
      exists now. split; [done | lia].
  - simpl run. cbn [step]. unfold when_view.
    case_bool_decide; [|by apply (IH t)].
    apply (IH t); [by apply delete_keeps_ids_distinct | | done].
    intros kb Hkb. apply Hold. simpl in Hkb.
    by apply list_elem_of_filter in Hkb as [_ ?].
Qed.

(** X21. As long as the clock readings of the submissions go strictly up,
    starting above 3, the ids of the store stay pairwise distinct, whatever
    else happens in between. *)
Theorem ids_distinct_while_clock_advances (evs : list Event) (now : Z) :
  increasing_from 3 (submit_readings evs) →
  NoDup (kb_id <$> knowledgeBases (run evs (initialState now))).
Proof.
  apply run_ids_distinct; [apply initial_ids_distinct|].
  intros kb Hkb. simpl in Hkb.
  repeat (apply elem_of_cons in Hkb as [->|Hkb]);
    [by exists 1 | by exists 2 | by exists 3 | by apply elem_of_nil in Hkb].
Qed.

Lemma ids_distinct_while_clock_advances_witness :
  let form := {| isCreating := true; newTitle := lit "Alpha";
                 newContent := lit "first"; newTags := lit "" |} in
  let evs := [Navigate knowledge; SubmitForm 1700000000000 form;
              ClickDelete (lit "2"); SubmitForm 1700000000001 form] in
  increasing_from 3 (submit_readings evs)
  ∧ NoDup (kb_id <$> knowledgeBases (run evs (initialState 0))).
Proof.
  intros form evs.
  assert (H : increasing_from 3 (submit_readings evs)) by (simpl; lia).
  split; [exact H|].
  exact (ids_distinct_while_clock_advances evs 0 H).
Defined.

(** ** Case of the query *)

(** X22. Two plain mention queries that differ only in the case of letters
    of A-Z get the same suggestions. *)
Theorem suggestions_ignore_case (newVal newVal' pre pre' q q' : str)
    (st : AppState) :
  active_query newVal pre q → active_query newVal' pre' q' →
  plain q → Forall2 case_variant q q' →
  filteredKBs (handleInputChange newVal' st)
  = filteredKBs (handleInputChange newVal st).
Proof.
  intros Hq Hq' Hplain Hcase.
  assert (Hkbs : ∀ v, knowledgeBases (handleInputChange v st) = knowledgeBases st)
    by (intros v; unfold handleInputChange; by repeat case_match).
  pose proof (case_variants_lower q q' Hplain Hcase) as Hlow.
  unfold filteredKBs.
  rewrite (handleInputChange_active _ _ _ st Hq),
          (handleInputChange_active _ _ _ st Hq'), !Hkbs.
  cbn [mentionQuery]. by rewrite Hlow.
Qed.

Lemma suggestions_ignore_case_witness :
  let st := initialState 0 in
  active_query (lit "see @DOC") (lit "see ") (lit "DOC")
  ∧ active_query (lit "@doc") (lit "") (lit "doc")
  ∧ plain (lit "DOC")
  ∧ Forall2 case_variant (lit "DOC") (lit "doc")
  ∧ filteredKBs (handleInputChange (lit "@doc") st)
    = filteredKBs (handleInputChange (lit "see @DOC") st).
Proof.
  intros st.
  assert (H1 : active_query (lit "see @DOC") (lit "see ") (lit "DOC"))
    by (split_and!; [reflexivity | by_evaluation | by_evaluation]).
  assert (H2 : active_query (lit "@doc") (lit "") (lit "doc"))
    by (split_and!; [reflexivity | by_evaluation | by_evaluation]).
  assert (H3 : plain (lit "DOC")) by (repeat constructor; done).
  assert (H4 : Forall2 case_variant (lit "DOC") (lit "doc")).
  { unfold lit. simpl.
    repeat (apply Forall2_cons_2; [right; left; split; [by vm_compute | done]|]).
    constructor. }
  split; [exact H1|]. split; [exact H2|]. split; [exact H3|].
  split; [exact H4|].
  exact (suggestions_ignore_case _ _ _ _ _ _ st H1 H2 H3 H4).
Defined.
